(** * terminus-store: label files, layers, builders and databases

    A shallow embedding of the parts of terminus-store that concern
    - the label file format and its locked writer
      ([src/storage/directory/locking.rs]),
    - the default methods of the [Layer], [SubjectLookup],
      [SubjectPredicateLookup] and [ObjectLookup] traits
      ([src/layer/layer.rs]),
    - the [DatabaseLayerBuilder] and [Database] wrappers ([src/store/mod.rs]).

    Futures are modelled by their completed value: a [result] for
    [io::Result], and explicit state passing for the file and stores
    they touch. Iterators are modelled by the finite lists they yield. *)

From Stdlib Require Import String Ascii List Bool NArith ZArith Lia.
From Stdlib Require Import Sorting.Sorted.
Import ListNotations.
Set Warnings "-register-all".

(** ** io::Error and io::Result *)

Inductive ErrorKind := NotFound | InvalidData | Other.

(** An [io::Error]: its kind and its message.  Where the source formats
    the offending contents into the message, only the fixed text is kept. *)
Record io_error := IoError { kind : ErrorKind; message : string }.

Inductive result (A : Type) : Type :=
| Ok (a : A)
| Err (e : io_error).
Arguments Ok {A} a.
Arguments Err {A} e.

Definition bind {A B} (r : result A) (k : A -> result B) : result B :=
  match r with
  | Ok a => k a
  | Err e => Err e
  end.

(** [Option::and_then]. *)
Definition option_bind {A B} (f : A -> option B) (o : option A) : option B :=
  match o with
  | Some a => f a
  | None => None
  end.

Notation "x <- c ;; k" := (bind c (fun x => k))
  (at level 61, c at next level, right associativity).

(** ** Layer names: [[u32; 5]] *)

Record layer_name := LayerName { w0 : Z; w1 : Z; w2 : Z; w3 : Z; w4 : Z }.

(** [==] on [[u32;5]]. *)
Definition name_eqb (a b : layer_name) : bool :=
  Z.eqb (w0 a) (w0 b) && Z.eqb (w1 a) (w1 b) && Z.eqb (w2 a) (w2 b)
  && Z.eqb (w3 a) (w3 b) && Z.eqb (w4 a) (w4 b).

Module Storage.

(** *** Textual forms used in label files *)

Definition hex_char (d : Z) : ascii :=
  if Z.ltb d 10 then ascii_of_nat (48 + Z.to_nat d)
  else ascii_of_nat (87 + Z.to_nat d).

(** [format!("{:08x}", w)] for a [u32]. *)
Fixpoint hex_digits (n : nat) (w : Z) : string :=
  match n with
  | O => EmptyString
  | S n' => hex_digits n' (Z.shiftr w 4) ++ String (hex_char (Z.land w 15)) EmptyString
  end.

(** Modelled from the spec: [layer::name_to_string] is not part of the
    sources; the spec gives a layer name's textual form as 40 lowercase
    hex characters, five 32-bit big-endian words. *)
Definition name_to_string (n : layer_name) : string :=
  hex_digits 8 (w0 n) ++ hex_digits 8 (w1 n) ++ hex_digits 8 (w2 n)
  ++ hex_digits 8 (w3 n) ++ hex_digits 8 (w4 n).

Definition hex_value (c : ascii) : option Z :=
  let n := nat_of_ascii c in
  if (48 <=? n)%nat && (n <=? 57)%nat then Some (Z.of_nat (n - 48))
  else if (97 <=? n)%nat && (n <=? 102)%nat then Some (Z.of_nat (n - 87))
  else None.

Fixpoint hex_word (acc : Z) (s : string) : option Z :=
  match s with
  | EmptyString => Some acc
  | String c rest =>
      match hex_value c with
      | Some d => hex_word (acc * 16 + d) rest
      | None => None
      end
  end.

(** Modelled from the spec: [layer::string_to_name] is not part of the
    sources; the spec accepts exactly 40 lowercase hex characters and calls
    anything else malformed hex (an InvalidFormat error). *)
Definition string_to_name (s : string) : result layer_name :=
  let word i := hex_word 0 (substring (8 * i) 8 s) in
  if negb (String.length s =? 40)%nat
  then Err (IoError InvalidData "malformed layer name")
  else match word 0%nat, word 1%nat, word 2%nat, word 3%nat, word 4%nat with
       | Some a, Some b, Some c, Some d, Some e => Ok (LayerName a b c d e)
       | _, _, _, _, _ => Err (IoError InvalidData "malformed layer name")
       end.

(** [format!("{}", v)] for a [u64]. *)
Fixpoint decimal_digits (fuel : nat) (v : N) (acc : string) : string :=
  match fuel with
  | O => acc
  | S fuel' =>
      let acc' := String (ascii_of_N (48 + N.modulo v 10)) acc in
      if N.ltb v 10 then acc' else decimal_digits fuel' (N.div v 10) acc'
  end.

Definition decimal (v : N) : string := decimal_digits (S (N.size_nat v)) v EmptyString.

(** *** [str::lines] *)

(** [str::split(c)]: always at least one piece. *)
Fixpoint split_char (c : ascii) (s : string) : list string :=
  match s with
  | EmptyString => [EmptyString]
  | String x rest =>
      let parts := split_char c rest in
      if Ascii.eqb x c then EmptyString :: parts
      else match parts with
           | p :: ps => String x p :: ps
           | [] => [String x EmptyString]
           end
  end.

(** [str::split_terminator(c)]: like [split], the trailing piece is
    skipped when it is empty. *)
Definition split_terminator (c : ascii) (s : string) : list string :=
  match rev (split_char c s) with
  | EmptyString :: rest => rev rest
  | _ => split_char c s
  end.

Definition newline : ascii := ascii_of_nat 10.
Definition carriage_return : ascii := ascii_of_nat 13.

(** One trailing ['\r'] is dropped from every line. *)
Definition strip_cr (l : string) : string :=
  match get (String.length l - 1) l with
  | Some c => if Ascii.eqb c carriage_return
              then substring 0 (String.length l - 1) l else l
  | None => l
  end.

Definition lines (s : string) : list string := map strip_cr (split_terminator newline s).

(** *** [u64::from_str_radix(s, 10)] *)

Definition digit_value (c : ascii) : option N :=
  let n := nat_of_ascii c in
  if (48 <=? n)%nat && (n <=? 57)%nat then Some (N.of_nat (n - 48)) else None.

(** Digits accumulate with [checked_mul] and [checked_add]: overflowing
    [u64] is an error. *)
Fixpoint parse_digits (acc : N) (s : string) : option N :=
  match s with
  | EmptyString => Some acc
  | String c rest =>
      match digit_value c with
      | Some d =>
          let acc' := (acc * 10 + d)%N in
          if N.ltb acc' (2 ^ 64) then parse_digits acc' rest else None
      | None => None
      end
  end.

Definition plus_sign : ascii := ascii_of_nat 43.

(** Empty input and a lone sign are errors; one leading ['+'] is allowed. *)
Definition u64_from_str_radix10 (s : string) : option N :=
  match s with
  | EmptyString => None
  | String c rest =>
      if Ascii.eqb c plus_sign then
        match rest with
        | EmptyString => None
        | _ => parse_digits 0 rest
        end
      else parse_digits 0 s
  end.

(** *** Labels *)

Record Label := MkLabel { name : string; layer : option layer_name; version : N }.

(** [read_label_file]: the whole file is read (through
    [String::from_utf8_lossy], which leaves the ASCII bytes that the parse
    looks at as they are), split into lines and parsed. *)
Definition read_label_file (data : string) (name : string) : result Label :=
  let lines := lines data in
  match lines with
  | [version_str; layer_str] =>
      match u64_from_str_radix10 version_str with
      | None => Err (IoError InvalidData "expected first line of label file to be a number")
      | Some version =>
          if (String.length layer_str =? 0)%nat
          then Ok (MkLabel name None version)
          else l <- string_to_name layer_str ;; Ok (MkLabel name (Some l) version)
      end
  | _ => Err (IoError InvalidData "expected label file to have two lines")
  end.

(** The bytes [write_label] emits for a label. *)
Definition label_contents (label : Label) : string :=
  match layer label with
  | None => decimal (version label) ++ String newline (String newline EmptyString)
  | Some l => decimal (version label) ++ String newline
               (name_to_string l ++ String newline EmptyString)
  end.

(** Writing [bytes] into [data] at byte offset [pos]: what lies before is
    kept, what lies under is overwritten, the file grows as needed. *)
Definition write_at (data : string) (pos : nat) (bytes : string) : string :=
  substring 0 pos data ++ bytes
  ++ substring (pos + String.length bytes) (String.length data - (pos + String.length bytes)) data.

(** How a call ends: it returns its [io::Result], or it panics. *)
Inductive outcome (A : Type) : Type :=
| Returned (r : result A)
| Panicked (msg : string).
Arguments Returned {A} r.
Arguments Panicked {A} msg.

(** [LockedFileWriter::write_label].  The writer is opened at offset 0;
    [read_label_file] reads it to the end, so [write_all] then writes at
    offset [String.length data].  On that branch [w.shutdown()] makes the
    tokio-fs [File] give up its std file, and [w] is dropped at the end of
    the closure: [LockedFileWriter::drop] calls [into_std()] on the shut
    down file, which panics after the bytes have been written.  On the
    other branches the writer is dropped with its file in place, which
    unlocks it. *)
Definition write_label (label : Label) (data : string) : outcome bool * string :=
  let version := version label in
  let contents := label_contents label in
  match read_label_file data (name label) with
  | Err e => (Returned (Err e), data)
  | Ok l =>
      if N.ltb version (Storage.version l) then
        (* someone else updated ahead of us. return false *)
        (Returned (Ok false), data)
      else if N.eqb (Storage.version l) version then
        (* version matches exactly: nothing to write *)
        (Returned (Ok true), data)
      else
        let cursor := String.length data in
        (Panicked "`File` instance already shutdown", write_at data cursor contents)
  end.

(** Modelled from the spec: [DirectoryLabelStore::set_label] is not part
    of the sources.  Following the spec, it builds the record
    [(name, new_layer, expected.version + 1)], hands it to the locked
    writer, and returns the new label when the write path reports success
    and [None] otherwise; a panic of the write path goes through. *)
Definition set_label (expected : Label) (new_layer : layer_name) (data : string)
  : outcome (option Label) * string :=
  let new_label := MkLabel (name expected) (Some new_layer) (version expected + 1) in
  let (r, data') := write_label new_label data in
  (match r with
   | Returned (Ok true) => Returned (Ok (Some new_label))
   | Returned (Ok false) => Returned (Ok None)
   | Returned (Err e) => Returned (Err e)
   | Panicked msg => Panicked msg
   end, data').

End Storage.

Module Layers.

(** ** Triples *)

Inductive ObjectType := Node (s : string) | Value (s : string).

Record StringTriple := MkStringTriple
  { st_subject : string; st_predicate : string; st_object : ObjectType }.

Record IdTriple := IdTriple_new { subject : N; predicate : N; object : N }.

(** ** Lookups, as the trait objects returned by a layer *)

(** [SubjectPredicateLookup]: [objects()] is the list the iterator yields. *)
Record SubjectPredicateLookup := MkSubjectPredicateLookup
  { spl_subject : N;
    spl_predicate : N;
    spl_objects : list N;
    spl_has_object : N -> bool }.

(** [SubjectLookup]. *)
Record SubjectLookup := MkSubjectLookup
  { sl_subject : N;
    sl_predicates : list SubjectPredicateLookup;
    sl_lookup_predicate : N -> option SubjectPredicateLookup }.

(** [ObjectLookup]. *)
Record ObjectLookup := MkObjectLookup
  { ol_object : N;
    ol_subject_predicate_pairs : list (N * N) }.

(** [Layer]: the required methods of the trait the default methods use;
    [parent] is the layer's parent, so chains are finite and acyclic. *)
Inductive layer := Layer
  { name : layer_name;
    parent : option layer;
    subject_id : string -> option N;
    predicate_id : string -> option N;
    object_node_id : string -> option N;
    object_value_id : string -> option N;
    subjects : list SubjectLookup;
    lookup_subject : N -> option SubjectLookup }.

(** ** Default methods *)

(** [SubjectPredicateLookup::triple]. *)
Definition spl_triple (spl : SubjectPredicateLookup) (object : N) : option IdTriple :=
  if spl_has_object spl object
  then Some (IdTriple_new (spl_subject spl) (spl_predicate spl) object)
  else None.

(** [SubjectPredicateLookup::triples]. *)
Definition spl_triples (spl : SubjectPredicateLookup) : list IdTriple :=
  let subject := spl_subject spl in
  let predicate := spl_predicate spl in
  map (fun o => IdTriple_new subject predicate o) (spl_objects spl).

(** [SubjectLookup::triples]. *)
Definition sl_triples (sl : SubjectLookup) : list IdTriple :=
  concat (map spl_triples (sl_predicates sl)).

(** [Layer::triple_exists]. *)
Definition triple_exists (l : layer) (subject predicate object : N) : bool :=
  match option_bind (fun objects => spl_triple objects object)
          (option_bind (fun pairs => sl_lookup_predicate pairs predicate)
             (lookup_subject l subject)) with
  | Some _ => true
  | None => false
  end.

(** [Layer::id_triple_exists]. *)
Definition id_triple_exists (l : layer) (triple : IdTriple) : bool :=
  triple_exists l (subject triple) (predicate triple) (object triple).

(** [Layer::string_triple_to_id]. *)
Definition string_triple_to_id (l : layer) (triple : StringTriple) : option IdTriple :=
  option_bind (fun subject =>
    option_bind (fun predicate =>
      option_map (fun object => IdTriple_new subject predicate object)
        (match st_object triple with
         | Node node => object_node_id l node
         | Value value => object_value_id l value
         end))
      (predicate_id l (st_predicate triple)))
    (subject_id l (st_subject triple)).

(** [Layer::string_triple_exists]. *)
Definition string_triple_exists (l : layer) (triple : StringTriple) : bool :=
  match option_map (fun t => id_triple_exists l t) (string_triple_to_id l triple) with
  | Some b => b
  | None => false
  end.

(** [Layer::triples]: [subjects().map(predicates).flatten().map(triples).flatten()]. *)
Definition triples (l : layer) : list IdTriple :=
  concat (map spl_triples (concat (map sl_predicates (subjects l)))).

(** [Layer::is_ancestor_of]: [self] only contributes its name. *)
Fixpoint is_ancestor_of (self : layer) (other : layer) : bool :=
  match other with
  | Layer _ None _ _ _ _ _ _ => false
  | Layer _ (Some parent) _ _ _ _ _ _ =>
      name_eqb (name parent) (name self) || is_ancestor_of self parent
  end.

(** The loop of [ObjectLookup::has_subject_predicate_pair] over the
    iterator's remaining pairs. *)
Fixpoint has_subject_predicate_pair_loop (pairs : list (N * N)) (subject predicate : N) : bool :=
  match pairs with
  | [] => false
  | (s, p) :: rest =>
      if N.eqb s subject && N.eqb p predicate then true
      else if N.ltb subject s || (N.eqb s subject && N.ltb predicate p) then
        (* we went past our search, so it's not going to appear anymore *)
        false
      else has_subject_predicate_pair_loop rest subject predicate
  end.

(** [ObjectLookup::has_subject_predicate_pair]. *)
Definition has_subject_predicate_pair (ol : ObjectLookup) (subject predicate : N) : bool :=
  has_subject_predicate_pair_loop (ol_subject_predicate_pairs ol) subject predicate.

(** The derived ordering of [IdTriple] ([#[derive(PartialOrd, Ord)]]):
    lexicographic on subject, predicate, object. *)
Definition idtriple_ltb (a b : IdTriple) : bool :=
  N.ltb (subject a) (subject b)
  || (N.eqb (subject a) (subject b) && N.ltb (predicate a) (predicate b))
  || (N.eqb (subject a) (subject b) && N.eqb (predicate a) (predicate b)
      && N.ltb (object a) (object b)).

(** The tuple ordering on [(u64, u64)] pairs. *)
Definition pair_ltb (a b : N * N) : bool :=
  N.ltb (fst a) (fst b) || (N.eqb (fst a) (fst b) && N.ltb (snd a) (snd b)).

(** A layer's chain: the layer, then its ancestors, nearest first. *)
Fixpoint chain (l : layer) : list layer :=
  match l with
  | Layer _ None _ _ _ _ _ _ => [l]
  | Layer _ (Some p) _ _ _ _ _ _ => l :: chain p
  end.

(** The strict ancestors of a layer. *)
Definition ancestors (l : layer) : list layer :=
  match parent l with
  | None => []
  | Some p => chain p
  end.

(** No two different layers among [ls] share a name. *)
Definition distinct_names (ls : list layer) : Prop :=
  forall x y, In x ls -> In y ls -> name x = name y -> x = y.

(** [ObjectLookup::triple]. *)
Definition ol_triple (ol : ObjectLookup) (subject predicate : N) : option IdTriple :=
  if has_subject_predicate_pair ol subject predicate
  then Some (IdTriple_new subject predicate (ol_object ol))
  else None.

(** [ObjectLookup::triples]. *)
Definition ol_triples (ol : ObjectLookup) : list IdTriple :=
  let object := ol_object ol in
  map (fun '(s, p) => IdTriple_new s p object) (ol_subject_predicate_pairs ol).

(** ** Partially resolved triples *)

(** [PossiblyResolved<T>]. *)
Inductive PossiblyResolved (T : Type) :=
| Unresolved (t : T)
| Resolved (id : N).
Arguments Unresolved {T} t.
Arguments Resolved {T} id.

(** [PartiallyResolvedTriple]. *)
Record PartiallyResolvedTriple := MkPartiallyResolvedTriple
  { pr_subject : PossiblyResolved string;
    pr_predicate : PossiblyResolved string;
    pr_object : PossiblyResolved ObjectType }.

(** [StringTriple::to_unresolved]. *)
Definition to_unresolved (t : StringTriple) : PartiallyResolvedTriple :=
  MkPartiallyResolvedTriple (Unresolved (st_subject t)) (Unresolved (st_predicate t))
    (Unresolved (st_object t)).

(** [IdTriple::to_resolved]. *)
Definition to_resolved (t : IdTriple) : PartiallyResolvedTriple :=
  MkPartiallyResolvedTriple (Resolved (subject t)) (Resolved (predicate t)) (Resolved (object t)).

(** [opt.map(|id| PossiblyResolved::Resolved(id)).unwrap_or(PossiblyResolved::Unresolved(u))]. *)
Definition resolved_or {T} (opt : option N) (u : T) : PossiblyResolved T :=
  match option_map (fun id => Resolved id) opt with
  | Some r => r
  | None => Unresolved u
  end.

(** [Layer::string_triple_to_partially_resolved]. *)
Definition string_triple_to_partially_resolved (l : layer) (triple : StringTriple)
  : PartiallyResolvedTriple :=
  MkPartiallyResolvedTriple
    (resolved_or (subject_id l (st_subject triple)) (st_subject triple))
    (resolved_or (predicate_id l (st_predicate triple)) (st_predicate triple))
    (match st_object triple with
     | Node node => resolved_or (object_node_id l node) (st_object triple)
     | Value value => resolved_or (object_value_id l value) (st_object triple)
     end).

(** A [HashMap<String, u64>] by its entries; [get] finds the entry of the
    key (keys are distinct in a [HashMap], so the first match is the
    only one). *)
Definition HashMap := list (string * N).

Fixpoint hashmap_get (m : HashMap) (k : string) : option N :=
  match m with
  | [] => None
  | (k', v) :: rest => if String.eqb k' k then Some v else hashmap_get rest k
  end.

(** [PartiallyResolvedTriple::resolve_with]: each [?] returns [None]. *)
Definition resolve_with (t : PartiallyResolvedTriple)
  (node_map predicate_map value_map : HashMap) : option IdTriple :=
  option_bind (fun subject =>
    option_bind (fun predicate =>
      option_bind (fun object => Some (IdTriple_new subject predicate object))
        (match pr_object t with
         | Unresolved (Node n) => hashmap_get node_map n
         | Unresolved (Value v) => hashmap_get value_map v
         | Resolved id => Some id
         end))
      (match pr_predicate t with
       | Unresolved p => hashmap_get predicate_map p
       | Resolved id => Some id
       end))
    (match pr_subject t with
     | Unresolved s => hashmap_get node_map s
     | Resolved id => Some id
     end).

End Layers.

Module Store.

Import Storage Layers.

(** ** [DatabaseLayerBuilder] *)

Section Builder.

(** A boxed [LayerBuilder] and the operations the wrapper forwards to it.
    Staging operations mutate the builder in place; [commit_boxed]
    persists it into the layer store, from which [get_layer] loads. *)
Variable LayerBuilder : Type.
Variable LayerStore : Type.
Variable builder_add_string_triple : StringTriple -> LayerBuilder -> unit * LayerBuilder.
Variable builder_add_id_triple : IdTriple -> LayerBuilder -> bool * LayerBuilder.
Variable builder_remove_string_triple : StringTriple -> LayerBuilder -> bool * LayerBuilder.
Variable builder_remove_id_triple : IdTriple -> LayerBuilder -> bool * LayerBuilder.
Variable commit_boxed : LayerBuilder -> LayerStore -> result unit * LayerStore.
Variable get_layer : LayerStore -> layer_name -> result (option layer).

(** The contents of the [RwLock]: [None] once committed. *)
Definition builder_state := option LayerBuilder.

Definition already_committed : io_error :=
  IoError InvalidData "builder has already been committed".

(** [DatabaseLayerBuilder::with_builder]. *)
Definition with_builder {R} (f : LayerBuilder -> R * LayerBuilder) (st : builder_state)
  : result R * builder_state :=
  match st with
  | None => (Err already_committed, st)
  | Some builder => let (r, builder') := f builder in (Ok r, Some builder')
  end.

Definition add_string_triple (triple : StringTriple) := with_builder (builder_add_string_triple triple).
Definition add_id_triple (triple : IdTriple) := with_builder (builder_add_id_triple triple).
Definition remove_string_triple (triple : StringTriple) := with_builder (builder_remove_string_triple triple).
Definition remove_id_triple (triple : IdTriple) := with_builder (builder_remove_id_triple triple).

(** [DatabaseLayerBuilder::commit]: the builder is swapped out of the lock
    before anything else happens.  The source panics ([expect]) when the
    layer just committed cannot be loaded; that case is an [Other] error
    here. *)
Definition commit (name : layer_name) (st : builder_state) (ls : LayerStore)
  : result layer * builder_state * LayerStore :=
  let builder := st in
  let swap : builder_state := None in
  match builder with
  | None => (Err already_committed, swap, ls)
  | Some builder =>
      let (r, ls') := commit_boxed builder ls in
      (match r with
       | Err e => Err e
       | Ok _ =>
           match get_layer ls' name with
           | Err e => Err e
           | Ok (Some layer) => Ok layer
           | Ok None => Err (IoError Other "layer that was just created was not found in store")
           end
       end, swap, ls')
  end.

(** The operations of a [DatabaseLayerBuilder], for sequences of calls. *)
Inductive builder_op :=
| OpAddStringTriple (t : StringTriple)
| OpAddIdTriple (t : IdTriple)
| OpRemoveStringTriple (t : StringTriple)
| OpRemoveIdTriple (t : IdTriple)
| OpCommit.

(** What a call returns, with the payload forgotten. *)
Definition erase {A} (r : result A) : result unit :=
  match r with Ok _ => Ok tt | Err e => Err e end.

Definition run_op (name : layer_name) (op : builder_op) (st : builder_state) (ls : LayerStore)
  : result unit * builder_state * LayerStore :=
  match op with
  | OpAddStringTriple t => let (r, st') := add_string_triple t st in (erase r, st', ls)
  | OpAddIdTriple t => let (r, st') := add_id_triple t st in (erase r, st', ls)
  | OpRemoveStringTriple t => let (r, st') := remove_string_triple t st in (erase r, st', ls)
  | OpRemoveIdTriple t => let (r, st') := remove_id_triple t st in (erase r, st', ls)
  | OpCommit => let '(r, st', ls') := commit name st ls in (erase r, st', ls')
  end.

(** Runs calls one after another, collecting what each returned. *)
Fixpoint run_ops (name : layer_name) (ops : list builder_op) (st : builder_state) (ls : LayerStore)
  : list (result unit) :=
  match ops with
  | [] => []
  | op :: rest =>
      let '(r, st', ls') := run_op name op st ls in r :: run_ops name rest st' ls'
  end.

End Builder.

(** ** [Database] *)

Section Database.

(** The label store and the layer store the database reaches through its
    [Store]: [get_label] and [set_label] of the [LabelStore] trait and
    [get_layer] of the [LayerStore] trait. *)
Variable LabelStore : Type.
Variable get_label : LabelStore -> string -> result (option Label).
Variable set_label : LabelStore -> Label -> layer_name -> result (option Label) * LabelStore.
Variable get_layer : layer_name -> result (option layer).

(** [Database::head]. *)
Definition head (label : string) (ls : LabelStore) : result (option layer) :=
  new_label <- get_label ls label ;;
  match new_label with
  | None => Err (IoError NotFound "database not found")
  | Some new_label =>
      match Storage.layer new_label with
      | None => Ok None
      | Some layer => get_layer layer
      end
  end.

(** [Database::set_head]. *)
Definition set_head (label : string) (new_layer : layer) (ls : LabelStore)
  : result bool * LabelStore :=
  let layer_name := Layers.name new_layer in
  match get_label ls label with
  | Err e => (Err e, ls)
  | Ok None => (Err (IoError NotFound "label not found"), ls)
  | Ok (Some label) =>
      let b := match Storage.layer label with
               | None => Ok true
               | Some layer_name =>
                   l <- get_layer layer_name ;;
                   Ok (match l with
                       | Some l => is_ancestor_of l new_layer
                       | None => false
                       end)
               end in
      match b with
      | Err e => (Err e, ls)
      | Ok true =>
          let (r, ls') := set_label ls label layer_name in
          (_ <- r ;; Ok true, ls')
      | Ok false => (Ok false, ls)
      end
  end.

End Database.

End Store.

(** * Properties *)

Lemma name_eqb_eq : forall a b, name_eqb a b = true <-> a = b.
Proof.
  intros [a0 a1 a2 a3 a4] [b0 b1 b2 b3 b4]; unfold name_eqb; simpl.
  rewrite !andb_true_iff, !Z.eqb_eq.
  split; [intros [[[[-> ->] ->] ->] ->]; reflexivity
         | intros H; inversion H; subst; tauto].
Qed.

Module StorageFacts.

Import Storage.

Lemma string_append_empty : forall s, (s ++ EmptyString)%string = s.
Proof. induction s as [|c s IH]; simpl; [reflexivity | now rewrite IH]. Qed.

Lemma substring_whole : forall s, substring 0 (String.length s) s = s.
Proof. induction s as [|c s IH]; simpl; [reflexivity | now rewrite IH]. Qed.

Lemma substring_past_end : forall s n m, (String.length s <= n)%nat -> substring n m s = EmptyString.
Proof.
  induction s as [|c s IH]; intros n m H.
  - destruct n, m; reflexivity.
  - destruct n as [|n]; simpl in H; [lia|]. simpl. apply IH. lia.
Qed.

(** Writing at the read cursor, which sits at the end of the file,
    appends. *)
Lemma write_at_end : forall data bytes,
  write_at data (String.length data) bytes = (data ++ bytes)%string.
Proof.
  intros data bytes. unfold write_at.
  rewrite substring_whole, substring_past_end by lia.
  now rewrite string_append_empty.
Qed.

(** The three outcomes of [write_label] on a readable file. *)
Lemma write_label_cases : forall label data disk,
  read_label_file data (name label) = Ok disk ->
  ((version label < version disk)%N -> write_label label data = (Returned (Ok false), data)) /\
  (version disk = version label -> write_label label data = (Returned (Ok true), data)) /\
  ((version disk < version label)%N ->
     write_label label data =
       (Panicked "`File` instance already shutdown", (data ++ label_contents label)%string)).
Proof.
  intros label data disk Hread. unfold write_label. rewrite Hread.
  repeat split; intros H.
  - apply N.ltb_lt in H. now rewrite H.
  - rewrite H, N.ltb_irrefl, N.eqb_refl. reflexivity.
  - assert (N.ltb (version label) (version disk) = false) as -> by (apply N.ltb_ge; lia).
    assert (N.eqb (version disk) (version label) = false) as -> by (apply N.eqb_neq; lia).
    now rewrite write_at_end.
Qed.

Lemma write_label_unreadable : forall label data e,
  read_label_file data (name label) = Err e -> write_label label data = (Returned (Err e), data).
Proof. intros label data e H. unfold write_label. now rewrite H. Qed.

End StorageFacts.

Module LabelFileFacts.

Import Storage StorageFacts.

Definition nl : string := String newline EmptyString.

(** A layer name used in the concrete cases below. *)
Definition sample_name : layer_name := LayerName 1 2 3 4 305419896.




(** The write lands at the offset where the read stopped, after the old
    record: the label file then has four lines and no longer reads. *)
Lemma set_label_write_unreadable :
  snd (set_label (MkLabel "db" None 0) sample_name ("0" ++ nl ++ nl)%string) =
    ("0" ++ nl ++ nl ++ "1" ++ nl ++ name_to_string sample_name ++ nl)%string /\
  read_label_file (snd (set_label (MkLabel "db" None 0) sample_name ("0" ++ nl ++ nl)%string)) "db"
    = Err (IoError InvalidData "expected label file to have two lines").
Proof. split; vm_compute; reflexivity. Qed.

(** C4 The label write path never lowers the stored version: a call to
    [write_label] (and so to [set_label]), whatever it returns, either
    leaves the label file as it was or writes a record whose version is
    strictly greater than the version the file held. *)
Theorem write_path_version_monotone :
  (forall label data,
     snd (write_label label data) = data \/
     exists disk, read_label_file data (name label) = Ok disk /\
       (version disk < version label)%N /\
       snd (write_label label data) = (data ++ label_contents label)%string) /\
  (forall expected new_layer data,
     snd (set_label expected new_layer data) = data \/
     exists disk, read_label_file data (name expected) = Ok disk /\
       (version disk < version expected + 1)%N /\
       snd (set_label expected new_layer data) =
         (data ++ label_contents (MkLabel (name expected) (Some new_layer) (version expected + 1)))%string).
Proof.
  assert (Hw : forall label data,
     snd (write_label label data) = data \/
     exists disk, read_label_file data (name label) = Ok disk /\
       (version disk < version label)%N /\
       snd (write_label label data) = (data ++ label_contents label)%string).
  { intros label data.
    destruct (read_label_file data (name label)) as [disk|e] eqn:Hread.
    - destruct (write_label_cases label data disk Hread) as [Hlt [Heq Hgt]].
      destruct (N.lt_trichotomy (version label) (version disk)) as [H|[H|H]].
      + left. now rewrite Hlt.
      + left. now rewrite Heq.
      + right. exists disk. split; [reflexivity | split; [exact H|]]. now rewrite Hgt.
    - left. now rewrite (write_label_unreadable label data e Hread). }
  split; [exact Hw|].
  intros expected new_layer data.
  set (new_label := MkLabel (name expected) (Some new_layer) (version expected + 1)).
  assert (Hs : snd (set_label expected new_layer data) = snd (write_label new_label data)).
  { unfold set_label; fold new_label. destruct (write_label new_label data); reflexivity. }
  rewrite Hs. exact (Hw new_label data).
Qed.

(** C6 (amended) [read_label_file] succeeds exactly when [str::lines]
    splits the contents into two lines (split at ['\n'], the final
    ['\n'] optional, one trailing ['\r'] dropped per line), the first of
    which parses as a decimal [u64] (an optional leading ['+'], no
    overflow) and the second of which is empty or a well-formed layer
    name; every other content is an [InvalidData] error. *)
Theorem read_label_file_result : forall data nm,
  match read_label_file data nm with
  | Ok l =>
      name l = nm /\
      exists version_str layer_str,
        lines data = [version_str; layer_str] /\
        u64_from_str_radix10 version_str = Some (version l) /\
        ((layer_str = EmptyString /\ layer l = None) \/
         (layer_str <> EmptyString /\ exists n, string_to_name layer_str = Ok n /\ layer l = Some n))
  | Err e =>
      kind e = InvalidData /\
      (List.length (lines data) <> 2%nat \/
       exists version_str layer_str,
         lines data = [version_str; layer_str] /\
         (u64_from_str_radix10 version_str = None \/
          (layer_str <> EmptyString /\ exists e', string_to_name layer_str = Err e')))
  end.
Proof.
  intros data nm. unfold read_label_file.
  destruct (lines data) as [|vs [|ls [|x rest]]] eqn:Hl;
    try (split; [reflexivity | left; simpl; discriminate]).
  destruct (u64_from_str_radix10 vs) as [v|] eqn:Hv.
  - destruct (String.length ls =? 0)%nat eqn:Hlen.
    + apply Nat.eqb_eq in Hlen. destruct ls; [|discriminate].
      split; [reflexivity|]. exists vs, EmptyString. repeat split; auto.
    + assert (Hne : ls <> EmptyString) by (intros ->; discriminate).
      destruct (string_to_name ls) as [n|e] eqn:Hn; simpl.
      * split; [reflexivity|]. exists vs, ls. repeat split; auto.
        right. split; [exact Hne|]. exists n. auto.
      * unfold string_to_name in Hn.
        split.
        -- destruct (negb (String.length ls =? 40)%nat); [inversion Hn; reflexivity|].
           destruct (hex_word 0 (substring (8 * 0) 8 ls)), (hex_word 0 (substring (8 * 1) 8 ls)),
             (hex_word 0 (substring (8 * 2) 8 ls)), (hex_word 0 (substring (8 * 3) 8 ls)),
             (hex_word 0 (substring (8 * 4) 8 ls)); inversion Hn; reflexivity.
        -- right. exists vs, ls. split; [reflexivity|]. right. split; [exact Hne|].
           exists e. fold (string_to_name ls). exact Hn.
  - split; [reflexivity|]. right. exists vs, ls. auto.
Qed.

(** C6 (counterexample) A label file whose second line has no
    terminating newline is read successfully, as is one with CRLF line
    ends. *)
Lemma read_label_file_accepts_unterminated_line :
  read_label_file ("7" ++ nl ++ name_to_string sample_name)%string "db"
    = Ok (MkLabel "db" (Some sample_name) 7) /\
  read_label_file ("7" ++ String carriage_return nl ++ String carriage_return nl)%string "db"
    = Ok (MkLabel "db" None 7).
Proof. split; vm_compute; reflexivity. Qed.

End LabelFileFacts.

Module LayerFacts.

Import Layers.

(** ** Chains and ancestors *)

Fixpoint depth (l : layer) : nat :=
  match l with
  | Layer _ None _ _ _ _ _ _ => O
  | Layer _ (Some p) _ _ _ _ _ _ => S (depth p)
  end.

Lemma chain_cons : forall l, chain l = l :: ancestors l.
Proof. intros [n [p|] ? ? ? ? ? ?]; reflexivity. Qed.

Lemma ancestors_child : forall n p a b c d e f,
  ancestors (Layer n (Some p) a b c d e f) = chain p.
Proof. reflexivity. Qed.

Lemma chain_depth : forall l a, In a (chain l) -> (depth a <= depth l)%nat.
Proof.
  fix IH 1. intros [n [p|] ? ? ? ? ? ?] a Hin; simpl in Hin.
  - destruct Hin as [<-|Hin]; [simpl; lia|].
    specialize (IH p a Hin). simpl. lia.
  - destruct Hin as [<-|[]]. lia.
Qed.

Lemma ancestors_depth : forall l a, In a (ancestors l) -> (depth a < depth l)%nat.
Proof.
  intros [n [p|] ? ? ? ? ? ?] a Hin; simpl in Hin; [|destruct Hin].
  apply chain_depth in Hin. simpl. lia.
Qed.

Lemma chain_incl : forall l b, In b (chain l) -> incl (chain b) (chain l).
Proof.
  fix IH 1. intros [n [p|] ? ? ? ? ? ?] b Hin; simpl in Hin.
  - destruct Hin as [<-|Hin]; [apply incl_refl|].
    intros x Hx. right. exact (IH p b Hin x Hx).
  - destruct Hin as [<-|[]]. apply incl_refl.
Qed.

Lemma ancestors_trans : forall a b c,
  In a (ancestors b) -> In b (ancestors c) -> In a (ancestors c).
Proof.
  intros a b [n [p|] ? ? ? ? ? ?] Hab Hbc; simpl in Hbc; [|destruct Hbc].
  simpl. apply (chain_incl p b Hbc). rewrite chain_cons. right. exact Hab.
Qed.

Lemma is_ancestor_of_iff : forall self other,
  is_ancestor_of self other = true <->
  exists a, In a (ancestors other) /\ name a = name self.
Proof.
  intros self. fix IH 1. intros [n [p|] ? ? ? ? ? ?]; simpl.
  - rewrite orb_true_iff, name_eqb_eq, (IH p), ancestors_child, (chain_cons p).
    split.
    + intros [H|[a [Ha Hn]]]; [exists p; simpl; auto | exists a; simpl; auto].
    + intros [a [[<-|Ha] Hn]]; [left; exact Hn | right; exists a; auto].
  - split; [discriminate | intros [a [[] _]]].
Qed.

(** A layer is never an ancestor of a layer of its own name whose chain
    has distinct names. *)
Lemma not_ancestor_of_same_name : forall l L,
  name l = name L -> distinct_names (chain L) -> is_ancestor_of l L = false.
Proof.
  intros l L Hn Hd. destruct (is_ancestor_of l L) eqn:H; [|reflexivity].
  exfalso. apply is_ancestor_of_iff in H as [a [Ha Han]].
  assert (a = L) as ->.
  { apply Hd; [rewrite chain_cons; right; exact Ha | rewrite chain_cons; left; reflexivity | congruence]. }
  apply ancestors_depth in Ha. lia.
Qed.

(** ** Sorted sequences *)

Section Sorting.

Context {A : Type} (R : A -> A -> Prop).

Lemma StronglySorted_app : forall l1 l2,
  StronglySorted R l1 -> StronglySorted R l2 ->
  (forall x y, In x l1 -> In y l2 -> R x y) ->
  StronglySorted R (l1 ++ l2).
Proof.
  induction l1 as [|a l1 IH]; intros l2 H1 H2 Hxy; simpl; [exact H2|].
  apply StronglySorted_inv in H1 as [H1 Ha].
  constructor.
  - apply IH; auto. intros x y Hx Hy. apply Hxy; simpl; auto.
  - apply Forall_app. split; [exact Ha|].
    apply Forall_forall. intros y Hy. apply Hxy; simpl; auto.
Qed.

(** Concatenated blocks are sorted when each block is and every element
    of an earlier block precedes every element of a later one. *)
Lemma StronglySorted_concat : forall L : list (list A),
  (forall b, In b L -> StronglySorted R b) ->
  StronglySorted (fun b1 b2 => forall x y, In x b1 -> In y b2 -> R x y) L ->
  StronglySorted R (concat L).
Proof.
  induction L as [|b L IH]; intros Hb HL; simpl; [constructor|].
  apply StronglySorted_inv in HL as [HL Hhd].
  apply StronglySorted_app.
  - apply Hb; simpl; auto.
  - apply IH; auto. intros b' Hb'. apply Hb; simpl; auto.
  - intros x y Hx Hy. apply in_concat in Hy as [b' [Hb' Hy]].
    rewrite Forall_forall in Hhd. exact (Hhd b' Hb' x y Hx Hy).
Qed.

End Sorting.

Lemma StronglySorted_map_in : forall {A B} (RA : A -> A -> Prop) (RB : B -> B -> Prop) (f : A -> B) l,
  (forall x y, In x l -> In y l -> RA x y -> RB (f x) (f y)) ->
  StronglySorted RA l -> StronglySorted RB (map f l).
Proof.
  intros A B RA RB f l Hf H. induction H as [|a l Hl IH Ha]; simpl; constructor.
  - apply IH. intros x y Hx Hy. apply Hf; simpl; auto.
  - apply Forall_map. apply Forall_forall. intros x Hx.
    rewrite Forall_forall in Ha. apply Hf; simpl; auto.
Qed.

Lemma concat_concat : forall {A} (L : list (list (list A))),
  concat (concat L) = concat (map (@concat A) L).
Proof.
  induction L as [|b L IH]; simpl; [reflexivity|]. now rewrite concat_app, IH.
Qed.

Lemma triples_blocks : forall l,
  triples l = concat (map sl_triples (subjects l)).
Proof.
  intros l. unfold triples, sl_triples.
  rewrite concat_map, concat_concat, !map_map. reflexivity.
Qed.

Definition idtriple_lt (a b : IdTriple) : Prop := idtriple_ltb a b = true.
Definition pair_lt (a b : N * N) : Prop := pair_ltb a b = true.

Lemma idtriple_lt_trans : forall a b c, idtriple_lt a b -> idtriple_lt b c -> idtriple_lt a c.
Proof.
  unfold idtriple_lt, idtriple_ltb. intros a b c.
  rewrite !orb_true_iff, !andb_true_iff, !N.ltb_lt, !N.eqb_eq. lia.
Qed.

Lemma pair_lt_trans : forall a b c, pair_lt a b -> pair_lt b c -> pair_lt a c.
Proof.
  unfold pair_lt, pair_ltb. intros a b c.
  rewrite !orb_true_iff, !andb_true_iff, !N.ltb_lt, !N.eqb_eq. lia.
Qed.

Lemma pair_lt_irrefl : forall a, ~ pair_lt a a.
Proof.
  unfold pair_lt, pair_ltb. intros a.
  rewrite !orb_true_iff, !andb_true_iff, !N.ltb_lt, !N.eqb_eq. lia.
Qed.

End LayerFacts.

Module LayerClaims.

Import Layers LayerFacts.

Ltac to_props :=
  repeat rewrite ?orb_true_iff, ?andb_true_iff, ?orb_false_iff, ?andb_false_iff,
    ?N.ltb_lt, ?N.eqb_eq, ?N.ltb_ge, ?N.eqb_neq in *.

(** C3 For an [ObjectLookup] whose subject-predicate pairs come in
    strictly ascending [(subject, predicate)] order,
    [has_subject_predicate_pair s p] holds exactly when [(s, p)] is one of
    the pairs, although the loop stops as soon as it has passed the key. *)
Theorem has_subject_predicate_pair_correct : forall ol subject predicate,
  Sorted pair_lt (ol_subject_predicate_pairs ol) ->
  has_subject_predicate_pair ol subject predicate = true <->
  In (subject, predicate) (ol_subject_predicate_pairs ol).
Proof.
  intros ol subject predicate Hsorted. unfold has_subject_predicate_pair.
  apply Sorted_StronglySorted in Hsorted; [|exact (fun x y z => pair_lt_trans x y z)].
  induction Hsorted as [|[s p] rest Hrest IH Hhd]; simpl; [split; [discriminate | intros []]|].
  destruct (N.eqb s subject && N.eqb p predicate) eqn:E1.
  - split; [intros _; left | reflexivity].
    to_props. destruct E1 as [-> ->]. reflexivity.
  - destruct (N.ltb subject s || (N.eqb s subject && N.ltb predicate p)) eqn:E2.
    + split; [discriminate|]. intros [Heq|Hin].
      * inversion Heq; subst. rewrite !N.eqb_refl in E1. discriminate.
      * exfalso. rewrite Forall_forall in Hhd. specialize (Hhd _ Hin).
        assert (Hback : pair_lt (subject, predicate) (s, p)).
        { unfold pair_lt, pair_ltb; simpl. to_props. lia. }
        exact (pair_lt_irrefl _ (pair_lt_trans _ _ _ Hback Hhd)).
    + rewrite IH. split; [intros H; right; exact H|].
      intros [Heq|Hin]; [|exact Hin].
      inversion Heq; subst. rewrite !N.eqb_refl in E1. discriminate.
Qed.

Lemma has_subject_predicate_pair_correct_witness :
  Sorted pair_lt [(1, 2); (1, 5); (3, 1)]%N /\
  (has_subject_predicate_pair (MkObjectLookup 9 [(1, 2); (1, 5); (3, 1)]%N) 1 5 = true <->
   In (1, 5)%N [(1, 2); (1, 5); (3, 1)]%N).
Proof.
  assert (Hs : Sorted pair_lt [(1, 2); (1, 5); (3, 1)]%N)
    by (repeat constructor).
  split; [exact Hs|].
  exact (has_subject_predicate_pair_correct (MkObjectLookup 9 [(1, 2); (1, 5); (3, 1)]%N) 1 5 Hs).
Defined.

(** C7 [string_triple_exists] is false as soon as one component string
    fails to resolve in the chain: the subject through [subject_id], the
    predicate through [predicate_id], and the object through
    [object_node_id] under the [Node] tag or [object_value_id] under the
    [Value] tag.  So a string known only as a value, asked for under the
    [Node] tag, gives an absent triple. *)
Theorem string_triple_exists_unresolved : forall l triple,
  (subject_id l (st_subject triple) = None \/
   predicate_id l (st_predicate triple) = None \/
   match st_object triple with
   | Node node => object_node_id l node = None
   | Value value => object_value_id l value = None
   end) ->
  string_triple_exists l triple = false.
Proof.
  intros l [s p o] H; simpl in H.
  unfold string_triple_exists, string_triple_to_id; simpl.
  destruct H as [H|[H|H]].
  - rewrite H. reflexivity.
  - destruct (subject_id l s); [|reflexivity]. simpl. rewrite H. reflexivity.
  - destruct (subject_id l s); [|reflexivity]. simpl.
    destruct (predicate_id l p); [|reflexivity]. simpl.
    destruct o as [node|value]; rewrite H; reflexivity.
Qed.

(** A base layer holding [("cow", "says", Value("moo"))]: node and
    subject id 1 for "cow", predicate id 1 for "says", value id 2 for
    "moo". *)
Definition cow_objects : SubjectPredicateLookup :=
  MkSubjectPredicateLookup 1 1 [2%N] (fun o => N.eqb o 2).

Definition cow_subject : SubjectLookup :=
  MkSubjectLookup 1 [cow_objects] (fun p => if N.eqb p 1 then Some cow_objects else None).

Definition cow_layer : layer :=
  Layer (LayerName 0 0 0 0 1) None
    (fun s => if String.eqb s "cow" then Some 1%N else None)
    (fun p => if String.eqb p "says" then Some 1%N else None)
    (fun o => if String.eqb o "cow" then Some 1%N else None)
    (fun o => if String.eqb o "moo" then Some 2%N else None)
    [cow_subject]
    (fun s => if N.eqb s 1 then Some cow_subject else None).

Lemma string_triple_exists_unresolved_witness :
  string_triple_exists cow_layer (MkStringTriple "cow" "says" (Value "moo")) = true /\
  object_node_id cow_layer "moo" = None /\
  string_triple_exists cow_layer (MkStringTriple "cow" "says" (Node "moo")) = false.
Proof.
  split; [vm_compute; reflexivity|].
  assert (H : object_node_id cow_layer "moo" = None) by (vm_compute; reflexivity).
  split; [exact H|].
  apply (string_triple_exists_unresolved cow_layer (MkStringTriple "cow" "says" (Node "moo"))).
  right. right. exact H.
Defined.

Lemma in_sl_triples : forall s x,
  In x (sl_triples s) ->
  exists p o, In p (sl_predicates s) /\ In o (spl_objects p) /\
              x = IdTriple_new (spl_subject p) (spl_predicate p) o.
Proof.
  intros s x Hx. unfold sl_triples in Hx.
  apply in_concat in Hx as [b [Hb Hx]]. apply in_map_iff in Hb as [p [<- Hp]].
  unfold spl_triples in Hx. apply in_map_iff in Hx as [o [<- Ho]].
  exists p, o. auto.
Qed.

(** The ordering hypotheses of C8, on the lookups a layer returns. *)
Definition subjects_ascending (l : layer) : Prop :=
  Sorted (fun a b => (sl_subject a < sl_subject b)%N) (subjects l).

Definition predicates_ascending (l : layer) : Prop :=
  forall s, In s (subjects l) ->
  Sorted (fun a b => (spl_predicate a < spl_predicate b)%N) (sl_predicates s).

Definition objects_ascending (l : layer) : Prop :=
  forall s p, In s (subjects l) -> In p (sl_predicates s) -> Sorted N.lt (spl_objects p).

(** Every [SubjectPredicateLookup] reports the subject of the
    [SubjectLookup] that produced it. *)
Definition predicate_lookups_agree (l : layer) : Prop :=
  forall s p, In s (subjects l) -> In p (sl_predicates s) -> spl_subject p = sl_subject s.

(** C8 (amended) When [subjects()] ascends strictly by subject, each
    [predicates()] ascends strictly by predicate, each [objects()] ascends
    strictly, and each predicate lookup reports the subject of the subject
    lookup it came from, [triples()] ascends strictly in
    [(subject, predicate, object)] order. *)
Theorem triples_ascending : forall l,
  subjects_ascending l -> predicates_ascending l -> objects_ascending l ->
  predicate_lookups_agree l ->
  Sorted idtriple_lt (triples l).
Proof.
  intros l Hs Hp Ho Hagree.
  apply StronglySorted_Sorted. rewrite triples_blocks.
  apply Sorted_StronglySorted in Hs; [|intros x y z; apply N.lt_trans].
  apply StronglySorted_concat.
  - intros b Hb. apply in_map_iff in Hb as [s [<- Hsin]].
    specialize (Hp s Hsin).
    apply Sorted_StronglySorted in Hp; [|intros x y z; apply N.lt_trans].
    unfold sl_triples. apply StronglySorted_concat.
    + intros b Hb. apply in_map_iff in Hb as [p [<- Hpin]].
      specialize (Ho s p Hsin Hpin).
      apply Sorted_StronglySorted in Ho; [|intros x y z; apply N.lt_trans].
      unfold spl_triples. apply (StronglySorted_map_in N.lt); [|exact Ho].
      intros x y _ _ Hxy. unfold idtriple_lt, idtriple_ltb; simpl. to_props. lia.
    + apply (StronglySorted_map_in (fun a b => (spl_predicate a < spl_predicate b)%N)); [|exact Hp].
      intros p1 p2 Hp1 Hp2 Hlt x y Hx Hy.
      unfold spl_triples in Hx, Hy.
      apply in_map_iff in Hx as [o1 [<- _]]. apply in_map_iff in Hy as [o2 [<- _]].
      rewrite (Hagree s p1 Hsin Hp1), (Hagree s p2 Hsin Hp2) in *.
      unfold idtriple_lt, idtriple_ltb; simpl. to_props. lia.
  - apply (StronglySorted_map_in (fun a b => (sl_subject a < sl_subject b)%N)); [|exact Hs].
    intros s1 s2 Hs1 Hs2 Hlt x y Hx Hy.
    apply in_sl_triples in Hx as [p1 [o1 [Hp1 [_ ->]]]].
    apply in_sl_triples in Hy as [p2 [o2 [Hp2 [_ ->]]]].
    unfold idtriple_lt, idtriple_ltb; simpl.
    rewrite (Hagree s1 p1 Hs1 Hp1), (Hagree s2 p2 Hs2 Hp2). to_props. lia.
Qed.

(** A layer whose two subject lookups ascend (subjects 1 and 2) while
    the predicate lookup under subject 1 reports subject 5. *)
Definition stray_objects : SubjectPredicateLookup :=
  MkSubjectPredicateLookup 5 1 [1%N] (fun o => N.eqb o 1).

Definition plain_objects : SubjectPredicateLookup :=
  MkSubjectPredicateLookup 2 1 [1%N] (fun o => N.eqb o 1).

Definition stray_layer : layer :=
  Layer (LayerName 0 0 0 0 2) None
    (fun _ => None) (fun _ => None) (fun _ => None) (fun _ => None)
    [MkSubjectLookup 1 [stray_objects] (fun _ => Some stray_objects);
     MkSubjectLookup 2 [plain_objects] (fun _ => Some plain_objects)]
    (fun _ => None).

(** A layer with subjects 1 and 2, predicates 1 and 3 under each, and
    objects 1 and 4 under each pair: eight triples. *)
Definition grid_objects (s p : N) : SubjectPredicateLookup :=
  MkSubjectPredicateLookup s p [1%N; 4%N] (fun o => N.eqb o 1 || N.eqb o 4).

Definition grid_subject (s : N) : SubjectLookup :=
  MkSubjectLookup s [grid_objects s 1; grid_objects s 3]
    (fun p => if N.eqb p 1 then Some (grid_objects s 1)
              else if N.eqb p 3 then Some (grid_objects s 3) else None).

Definition grid_layer : layer :=
  Layer (LayerName 0 0 0 0 3) None
    (fun _ => None) (fun _ => None) (fun _ => None) (fun _ => None)
    [grid_subject 1; grid_subject 2]
    (fun s => if N.eqb s 1 then Some (grid_subject 1)
              else if N.eqb s 2 then Some (grid_subject 2) else None).

Lemma triples_ascending_witness :
  subjects_ascending grid_layer /\ predicates_ascending grid_layer /\
  objects_ascending grid_layer /\ predicate_lookups_agree grid_layer /\
  triples grid_layer =
    [IdTriple_new 1 1 1; IdTriple_new 1 1 4; IdTriple_new 1 3 1; IdTriple_new 1 3 4;
     IdTriple_new 2 1 1; IdTriple_new 2 1 4; IdTriple_new 2 3 1; IdTriple_new 2 3 4] /\
  Sorted idtriple_lt (triples grid_layer).
Proof.
  assert (H1 : subjects_ascending grid_layer).
  { unfold subjects_ascending. cbn. repeat constructor. }
  assert (H2 : predicates_ascending grid_layer).
  { intros s [<-|[<-|[]]]; cbn; repeat constructor. }
  assert (H3 : objects_ascending grid_layer).
  { intros s p [<-|[<-|[]]] [<-|[<-|[]]]; cbn; repeat constructor. }
  assert (H4 : predicate_lookups_agree grid_layer).
  { intros s p [<-|[<-|[]]] [<-|[<-|[]]]; reflexivity. }
  split; [exact H1|]. split; [exact H2|]. split; [exact H3|]. split; [exact H4|].
  split; [reflexivity|].
  exact (triples_ascending grid_layer H1 H2 H3 H4).
Defined.

(** C8 (counterexample) The ordering hypotheses alone do not make
    [triples()] ascend: [triples()] takes the subject from each
    [SubjectPredicateLookup], which here disagrees with its subject
    lookup, and the triples come out as (5,1,1) then (2,1,1). *)
Lemma triples_order_needs_agreeing_subjects :
  subjects_ascending stray_layer /\ predicates_ascending stray_layer /\
  objects_ascending stray_layer /\
  triples stray_layer = [IdTriple_new 5 1 1; IdTriple_new 2 1 1] /\
  ~ Sorted idtriple_lt (triples stray_layer).
Proof.
  split; [repeat constructor|].
  split; [intros s [<-|[<-|[]]]; repeat constructor|].
  split; [intros s p [<-|[<-|[]]] [<-|[]]; repeat constructor|].
  split; [reflexivity|].
  intros H. apply Sorted_inv in H as [_ Hhd]. inversion Hhd as [|? ? Hlt].
  vm_compute in Hlt. discriminate.
Qed.

(** C2 [is_ancestor_of] is a strict partial order on layers whose names
    identify them (acyclicity holds of every chain): no layer is its own
    ancestor, two layers are never each other's ancestor, and an ancestor
    of an ancestor is an ancestor. *)
Theorem is_ancestor_of_strict_order :
  (forall L, distinct_names (chain L) -> is_ancestor_of L L = false) /\
  (forall A B, distinct_names (chain A ++ chain B) ->
     ~ (is_ancestor_of A B = true /\ is_ancestor_of B A = true)) /\
  (forall A B C, distinct_names (chain A ++ chain B ++ chain C) ->
     is_ancestor_of A B = true -> is_ancestor_of B C = true -> is_ancestor_of A C = true).
Proof.
  assert (Hstrict : forall A B ls, distinct_names ls -> In A ls -> incl (chain B) ls ->
            is_ancestor_of A B = true -> In A (ancestors B)).
  { intros A B ls Hd HA Hincl Hanc.
    apply is_ancestor_of_iff in Hanc as [a [Ha Hn]].
    assert (a = A) as <-; [|exact Ha].
    apply Hd; auto. apply Hincl. rewrite chain_cons. right. exact Ha. }
  split; [|split].
  - intros L Hd. destruct (is_ancestor_of L L) eqn:H; [|reflexivity].
    exfalso. apply (Hstrict L L (chain L) Hd) in H;
      [| rewrite chain_cons; left; reflexivity | apply incl_refl].
    apply ancestors_depth in H. lia.
  - intros A B Hd [HAB HBA].
    apply (Hstrict A B (chain A ++ chain B) Hd) in HAB;
      [| apply in_or_app; left; rewrite chain_cons; left; reflexivity
       | intros x Hx; apply in_or_app; right; exact Hx].
    apply (Hstrict B A (chain A ++ chain B) Hd) in HBA;
      [| apply in_or_app; right; rewrite chain_cons; left; reflexivity
       | intros x Hx; apply in_or_app; left; exact Hx].
    apply ancestors_depth in HAB. apply ancestors_depth in HBA. lia.
  - intros A B C Hd HAB HBC.
    apply (Hstrict B C (chain A ++ chain B ++ chain C) Hd) in HBC;
      [| apply in_or_app; right; apply in_or_app; left; rewrite chain_cons; left; reflexivity
       | intros x Hx; apply in_or_app; right; apply in_or_app; right; exact Hx].
    apply is_ancestor_of_iff in HAB as [a [Ha Hn]].
    apply is_ancestor_of_iff. exists a. split; [|exact Hn].
    exact (ancestors_trans a B C Ha HBC).
Qed.

(** A base layer and a child of it. *)
Definition base_layer : layer :=
  Layer (LayerName 0 0 0 0 10) None
    (fun _ => None) (fun _ => None) (fun _ => None) (fun _ => None) [] (fun _ => None).

Definition child_layer : layer :=
  Layer (LayerName 0 0 0 0 11) (Some base_layer)
    (fun _ => None) (fun _ => None) (fun _ => None) (fun _ => None) [] (fun _ => None).

Lemma is_ancestor_of_strict_order_witness :
  distinct_names (chain child_layer) /\ is_ancestor_of child_layer child_layer = false /\
  distinct_names (chain base_layer ++ chain child_layer) /\
  ~ (is_ancestor_of base_layer child_layer = true /\ is_ancestor_of child_layer base_layer = true).
Proof.
  assert (Hd : forall ls, incl ls [child_layer; base_layer] -> distinct_names ls).
  { intros ls Hincl x y Hx Hy Hn.
    apply Hincl in Hx, Hy.
    destruct Hx as [<-|[<-|[]]]; destruct Hy as [<-|[<-|[]]];
      solve [reflexivity | vm_compute in Hn; discriminate]. }
  assert (H1 : distinct_names (chain child_layer)).
  { apply Hd. intros x Hx. exact Hx. }
  assert (H2 : distinct_names (chain base_layer ++ chain child_layer)).
  { apply Hd. intros x Hx. simpl in Hx. simpl. tauto. }
  destruct is_ancestor_of_strict_order as [Hirr [Hanti _]].
  split; [exact H1|]. split; [exact (Hirr child_layer H1)|].
  split; [exact H2|]. exact (Hanti base_layer child_layer H2).
Defined.

End LayerClaims.

Module StoreClaims.

Import Storage Layers LayerFacts Store.
Local Open Scope string_scope.

Section BuilderClaims.

Variable LayerBuilder : Type.
Variable LayerStore : Type.
Variable builder_add_string_triple : StringTriple -> LayerBuilder -> unit * LayerBuilder.
Variable builder_add_id_triple : IdTriple -> LayerBuilder -> bool * LayerBuilder.
Variable builder_remove_string_triple : StringTriple -> LayerBuilder -> bool * LayerBuilder.
Variable builder_remove_id_triple : IdTriple -> LayerBuilder -> bool * LayerBuilder.
Variable commit_boxed : LayerBuilder -> LayerStore -> result unit * LayerStore.
Variable get_layer : LayerStore -> layer_name -> result (option layer).

Let commit' := Store.commit LayerBuilder LayerStore commit_boxed get_layer.
Let run_op' := Store.run_op LayerBuilder LayerStore builder_add_string_triple
  builder_add_id_triple builder_remove_string_triple builder_remove_id_triple
  commit_boxed get_layer.
Let run_ops' := Store.run_ops LayerBuilder LayerStore builder_add_string_triple
  builder_add_id_triple builder_remove_string_triple builder_remove_id_triple
  commit_boxed get_layer.

Lemma commit_empties_lock : forall name st ls, snd (fst (commit' name st ls)) = None.
Proof.
  intros name [b|] ls; unfold commit', Store.commit; [|reflexivity].
  destruct (commit_boxed b ls); reflexivity.
Qed.

Lemma run_op_committed : forall name op ls,
  run_op' name op None ls = (Err already_committed, None, ls).
Proof. intros name [t|t|t|t|] ls; reflexivity. Qed.

(** C5 Once [commit] has run, the lock holds no builder, and every later
    call ([add_string_triple], [add_id_triple], [remove_string_triple],
    [remove_id_triple] or another [commit]) returns the already-committed
    error, leaves the layer store as it was and the builder committed; so
    does every call of any later sequence of calls. *)
Theorem calls_after_commit_fail : forall name st ls,
  let '(_, st', ls') := commit' name st ls in
  st' = None /\
  (forall op ls'', run_op' name op st' ls'' = (Err already_committed, None, ls'')) /\
  (forall ops, Forall (fun r => r = Err already_committed) (run_ops' name ops st' ls')).
Proof.
  intros name st ls.
  pose proof (commit_empties_lock name st ls) as Hnone.
  destruct (commit' name st ls) as [[r st'] ls']. simpl in Hnone. subst st'.
  split; [reflexivity|]. split; [apply run_op_committed|].
  intros ops. generalize ls'. induction ops as [|op ops IH]; intros ls0; simpl; [constructor|].
  unfold run_ops' in IH. fold run_op'. rewrite run_op_committed. constructor; [reflexivity | apply IH].
Qed.

End BuilderClaims.

(** A label store kept as an association list. *)
Fixpoint lookup_label (labels : list (string * Label)) (n : string) : option Label :=
  match labels with
  | [] => None
  | (k, l) :: rest => if String.eqb k n then Some l else lookup_label rest n
  end.

Definition list_get_label (labels : list (string * Label)) (n : string) : result (option Label) :=
  Ok (lookup_label labels n).

(** Modelled from the spec: [MemoryLabelStore::set_label] is not part of
    the sources; the spec's compare-and-swap on the version. *)
Definition list_set_label (labels : list (string * Label)) (label : Label) (l : layer_name)
  : result (option Label) * list (string * Label) :=
  match lookup_label labels (Storage.name label) with
  | Some current =>
      if N.eqb (version current) (version label) then
        let new_label := MkLabel (Storage.name label) (Some l) (version label + 1) in
        (Ok (Some new_label), (Storage.name label, new_label) :: labels)
      else (Ok None, labels)
  | None => (Ok None, labels)
  end.

(** A layer store holding the base and child layers of [LayerClaims]. *)
Definition two_layer_store (n : layer_name) : result (option layer) :=
  if name_eqb n (Layers.name LayerClaims.base_layer) then Ok (Some LayerClaims.base_layer)
  else if name_eqb n (Layers.name LayerClaims.child_layer) then Ok (Some LayerClaims.child_layer)
  else Ok None.

Section DatabaseClaims.

Variable LabelStore : Type.
Variable get_label : LabelStore -> string -> result (option Label).
Variable set_label : LabelStore -> Label -> layer_name -> result (option Label) * LabelStore.
Variable get_layer : layer_name -> result (option layer).

Let head' := Store.head LabelStore get_label get_layer.
Let set_head' := Store.set_head LabelStore get_label set_label get_layer.

(** C9 [Database::head] tells a missing database from an empty one: with
    no label of that name it fails with [NotFound]; with a label whose
    head layer is unset it succeeds with [None]. *)
Theorem head_missing_vs_empty : forall db ls,
  (get_label ls db = Ok None ->
     head' db ls = Err (IoError NotFound "database not found")) /\
  (forall label, get_label ls db = Ok (Some label) -> Storage.layer label = None ->
     head' db ls = Ok None).
Proof.
  intros db ls. unfold head', Store.head. split.
  - intros H. rewrite H. reflexivity.
  - intros label H Hl. rewrite H. simpl. rewrite Hl. reflexivity.
Qed.

(** C10 (amended) [Database::set_head] with a missing label fails with
    [NotFound] and changes nothing.  With an existing label it calls
    [set_label] exactly when the head is unset, or when the head layer
    loads and [is_ancestor_of] the new layer; when the head layer loads
    and is not an ancestor, or does not load, it returns [false] and
    changes nothing; a load error is returned as is.  In particular
    [set_head] with the layer already at head returns [false] when the
    layer store returns that layer and its chain has distinct names. *)
Theorem set_head_outcome : forall db new_layer ls,
  (forall e, get_label ls db = Err e -> set_head' db new_layer ls = (Err e, ls)) /\
  (get_label ls db = Ok None ->
     set_head' db new_layer ls = (Err (IoError NotFound "label not found"), ls)) /\
  (forall label, get_label ls db = Ok (Some label) ->
     let attempt := let (r, ls') := set_label ls label (Layers.name new_layer) in
                    (_ <- r ;; Ok true, ls') in
     (Storage.layer label = None -> set_head' db new_layer ls = attempt) /\
     (forall hn l, Storage.layer label = Some hn -> get_layer hn = Ok (Some l) ->
        set_head' db new_layer ls =
          if is_ancestor_of l new_layer then attempt else (Ok false, ls)) /\
     (forall hn, Storage.layer label = Some hn -> get_layer hn = Ok None ->
        set_head' db new_layer ls = (Ok false, ls)) /\
     (forall hn e, Storage.layer label = Some hn -> get_layer hn = Err e ->
        set_head' db new_layer ls = (Err e, ls)) /\
     (forall l, Storage.layer label = Some (Layers.name new_layer) ->
        get_layer (Layers.name new_layer) = Ok (Some l) ->
        Layers.name l = Layers.name new_layer -> distinct_names (chain new_layer) ->
        set_head' db new_layer ls = (Ok false, ls))).
Proof.
  intros db new_layer ls. unfold set_head', Store.set_head.
  split; [intros e H; rewrite H; reflexivity|].
  split; [intros H; rewrite H; reflexivity|].
  intros label H. cbv zeta. rewrite H. repeat split.
  - intros Hl. rewrite Hl. reflexivity.
  - intros hn l Hl Hg. rewrite Hl. simpl. rewrite Hg. simpl.
    destruct (is_ancestor_of l new_layer); reflexivity.
  - intros hn Hl Hg. rewrite Hl. simpl. rewrite Hg. reflexivity.
  - intros hn e Hl Hg. rewrite Hl. simpl. rewrite Hg. reflexivity.
  - intros l Hl Hg Hn Hd. rewrite Hl. simpl. rewrite Hg. simpl.
    rewrite (not_ancestor_of_same_name l new_layer Hn Hd). reflexivity.
Qed.

End DatabaseClaims.

Definition db_labels : list (string * Label) := [("db", MkLabel "db" None 0)].

Definition db_labels_at_base : list (string * Label) :=
  [("db", MkLabel "db" (Some (Layers.name LayerClaims.base_layer)) 1)].

Definition db_labels_at_child : list (string * Label) :=
  [("db", MkLabel "db" (Some (Layers.name LayerClaims.child_layer)) 2)].

Lemma head_missing_vs_empty_witness :
  list_get_label [] "db" = Ok None /\
  Store.head _ list_get_label two_layer_store "db" [] =
    Err (IoError NotFound "database not found") /\
  list_get_label db_labels "db" = Ok (Some (MkLabel "db" None 0)) /\
  Store.head _ list_get_label two_layer_store "db" db_labels = Ok None.
Proof.
  pose proof (head_missing_vs_empty _ list_get_label two_layer_store "db" []) as [H1 _].
  pose proof (head_missing_vs_empty _ list_get_label two_layer_store "db" db_labels) as [_ H2].
  assert (E1 : list_get_label [] "db" = Ok None) by reflexivity.
  assert (E2 : list_get_label db_labels "db" = Ok (Some (MkLabel "db" None 0))) by reflexivity.
  split; [exact E1|]. split; [exact (H1 E1)|]. split; [exact E2|].
  exact (H2 _ E2 eq_refl).
Defined.

(** C10 (counterexample) With no label of the database's name,
    [set_head] does not return [false]: it fails with [NotFound]. *)
Lemma set_head_missing_label_errors :
  Store.set_head _ list_get_label list_set_label two_layer_store "db" LayerClaims.child_layer []
    = (Err (IoError NotFound "label not found"), []).
Proof. reflexivity. Qed.

Lemma set_head_outcome_witness :
  list_get_label db_labels_at_base "db" =
    Ok (Some (MkLabel "db" (Some (Layers.name LayerClaims.base_layer)) 1)) /\
  two_layer_store (Layers.name LayerClaims.base_layer) = Ok (Some LayerClaims.base_layer) /\
  Store.set_head _ list_get_label list_set_label two_layer_store "db" LayerClaims.child_layer
    db_labels_at_base =
    (Ok true, ("db", MkLabel "db" (Some (Layers.name LayerClaims.child_layer)) 2) :: db_labels_at_base) /\
  list_get_label db_labels_at_child "db" =
    Ok (Some (MkLabel "db" (Some (Layers.name LayerClaims.child_layer)) 2)) /\
  Store.set_head _ list_get_label list_set_label two_layer_store "db" LayerClaims.child_layer
    db_labels_at_child = (Ok false, db_labels_at_child).
Proof.
  assert (G1 : list_get_label db_labels_at_base "db" =
    Ok (Some (MkLabel "db" (Some (Layers.name LayerClaims.base_layer)) 1))) by reflexivity.
  assert (L1 : two_layer_store (Layers.name LayerClaims.base_layer) = Ok (Some LayerClaims.base_layer))
    by reflexivity.
  assert (G2 : list_get_label db_labels_at_child "db" =
    Ok (Some (MkLabel "db" (Some (Layers.name LayerClaims.child_layer)) 2))) by reflexivity.
  assert (L2 : two_layer_store (Layers.name LayerClaims.child_layer) = Ok (Some LayerClaims.child_layer))
    by reflexivity.
  assert (D : distinct_names (chain LayerClaims.child_layer)).
  { intros x y Hx Hy Hn. simpl in Hx, Hy.
    destruct Hx as [<-|[<-|[]]]; destruct Hy as [<-|[<-|[]]];
      solve [reflexivity | vm_compute in Hn; discriminate]. }
  pose proof (set_head_outcome _ list_get_label list_set_label two_layer_store
                "db" LayerClaims.child_layer db_labels_at_base) as [_ [_ H1]].
  pose proof (set_head_outcome _ list_get_label list_set_label two_layer_store
                "db" LayerClaims.child_layer db_labels_at_child) as [_ [_ H2]].
  destruct (H1 _ G1) as [_ [Hanc _]].
  destruct (H2 _ G2) as [_ [_ [_ [_ Hsame]]]].
  split; [exact G1|]. split; [exact L1|].
  split; [rewrite (Hanc _ _ eq_refl L1); reflexivity|].
  split; [exact G2|].
  exact (Hsame _ eq_refl L2 eq_refl D).
Defined.

End StoreClaims.

(** * Further properties of the label file format *)

Module LabelFileExtras.

Import Storage StorageFacts.

(** Occurrences of a character in a string. *)
Fixpoint count_char (c : ascii) (s : string) : nat :=
  match s with
  | EmptyString => 0
  | String x rest => (if Ascii.eqb x c then 1 else 0) + count_char c rest
  end.

(** Every character of [s] satisfies [f]. *)
Fixpoint all_chars (f : ascii -> bool) (s : string) : bool :=
  match s with
  | EmptyString => true
  | String x rest => f x && all_chars f rest
  end.

(** Neither a line feed nor a carriage return. *)
Definition plain (x : ascii) : bool :=
  negb (Ascii.eqb x newline) && negb (Ascii.eqb x carriage_return).

(** The ranges of the five words of a [[u32; 5]]. *)
Definition u32_words (n : layer_name) : Prop :=
  (0 <= w0 n < 2 ^ 32 /\ 0 <= w1 n < 2 ^ 32 /\ 0 <= w2 n < 2 ^ 32 /\
   0 <= w3 n < 2 ^ 32 /\ 0 <= w4 n < 2 ^ 32)%Z.

Lemma slength_app : forall s t, String.length (s ++ t) = (String.length s + String.length t)%nat.
Proof. induction s as [|c s IH]; intros t; simpl; [reflexivity | now rewrite IH]. Qed.

Lemma sapp_assoc : forall s t u, ((s ++ t) ++ u)%string = (s ++ t ++ u)%string.
Proof. induction s as [|c s IH]; intros t u; simpl; [reflexivity | now rewrite IH]. Qed.

Lemma count_char_app : forall c s t,
  count_char c (s ++ t) = (count_char c s + count_char c t)%nat.
Proof. induction s as [|x s IH]; intros t; simpl; [reflexivity | rewrite IH; lia]. Qed.

Lemma all_chars_app : forall f s t, all_chars f (s ++ t) = all_chars f s && all_chars f t.
Proof.
  induction s as [|x s IH]; intros t; simpl; [reflexivity|].
  now rewrite IH, andb_assoc.
Qed.

Lemma eqb_self : forall c, Ascii.eqb c c = true.
Proof. intros c. now apply Ascii.eqb_eq. Qed.

(** *** Line splitting *)

Lemma split_char_nonempty : forall c s, split_char c s <> [].
Proof.
  intros c s; induction s as [|x s IH]; simpl; [discriminate|].
  destruct (Ascii.eqb x c); [discriminate|].
  destruct (split_char c s); discriminate.
Qed.

Lemma split_char_length : forall c s, List.length (split_char c s) = S (count_char c s).
Proof.
  intros c s; induction s as [|x s IH]; simpl; [reflexivity|].
  destruct (Ascii.eqb x c); simpl; [now rewrite IH|].
  destruct (split_char c s) as [|p ps]; [discriminate | exact IH].
Qed.

Lemma split_char_snoc : forall c s,
  split_char c (s ++ String c EmptyString) = split_char c s ++ [EmptyString].
Proof.
  intros c s; induction s as [|x s IH]; simpl.
  - rewrite ?eqb_self; reflexivity.
  - rewrite IH. destruct (Ascii.eqb x c); [reflexivity|].
    destruct (split_char c s) eqn:E; [exfalso; exact (split_char_nonempty c s E) | reflexivity].
Qed.

Lemma split_terminator_snoc : forall c s,
  split_terminator c (s ++ String c EmptyString) = split_char c s.
Proof.
  intros c s. unfold split_terminator.
  rewrite split_char_snoc, rev_app_distr. simpl. now rewrite rev_involutive.
Qed.

Lemma split_terminator_length : forall c s,
  (List.length (split_terminator c s) <= List.length (split_char c s))%nat.
Proof.
  intros c s. unfold split_terminator.
  destruct (rev (split_char c s)) as [|[|x r] rest] eqn:E; try lia.
  rewrite length_rev, <- (length_rev (split_char c s)), E. simpl. lia.
Qed.

Lemma lines_length_le : forall s, (List.length (lines s) <= S (count_char newline s))%nat.
Proof.
  intros s. unfold lines. rewrite length_map, <- split_char_length.
  apply split_terminator_length.
Qed.

Lemma lines_length_snoc : forall s,
  List.length (lines (s ++ String newline EmptyString)) = S (count_char newline s).
Proof.
  intros s. unfold lines. rewrite length_map, split_terminator_snoc.
  apply split_char_length.
Qed.

Lemma split_char_app_plain : forall s t, all_chars plain s = true ->
  split_char newline (s ++ String newline t) = s :: split_char newline t.
Proof.
  induction s as [|x s IH]; intros t H; simpl.
  - rewrite ?eqb_self; reflexivity.
  - simpl in H. apply andb_true_iff in H as [Hx Hs]. rewrite (IH t Hs).
    unfold plain in Hx. apply andb_true_iff in Hx as [Hx _].
    apply negb_true_iff in Hx. now rewrite Hx.
Qed.

Lemma get_all_chars : forall f s n x,
  all_chars f s = true -> get n s = Some x -> f x = true.
Proof.
  intros f s; induction s as [|y s IH]; intros n x Hs Hg; [discriminate|].
  simpl in Hs. apply andb_true_iff in Hs as [Hy Hs].
  destruct n as [|n]; simpl in Hg; [inversion Hg; subst; exact Hy | exact (IH n x Hs Hg)].
Qed.

Lemma strip_cr_plain : forall s, all_chars plain s = true -> strip_cr s = s.
Proof.
  intros s Hs. unfold strip_cr.
  destruct (get (String.length s - 1) s) as [x|] eqn:E; [|reflexivity].
  pose proof (get_all_chars plain s _ x Hs E) as Hx.
  unfold plain in Hx. apply andb_true_iff in Hx as [_ Hx].
  apply negb_true_iff in Hx. now rewrite Hx.
Qed.

(** The two lines of a label file as [write_label] formats it. *)
Lemma lines_two : forall a b, all_chars plain a = true -> all_chars plain b = true ->
  lines (a ++ String newline (b ++ String newline EmptyString)) = [a; b].
Proof.
  intros a b Ha Hb. unfold lines, split_terminator.
  rewrite (split_char_app_plain a _ Ha), (split_char_app_plain b _ Hb). cbn.
  now rewrite (strip_cr_plain a Ha), (strip_cr_plain b Hb).
Qed.

Lemma read_label_file_not_two : forall data nm,
  List.length (lines data) <> 2%nat ->
  read_label_file data nm = Err (IoError InvalidData "expected label file to have two lines").
Proof.
  intros data nm H. unfold read_label_file.
  destruct (lines data) as [|a [|b [|c rest]]]; simpl in H; try reflexivity. lia.
Qed.

Lemma read_label_file_two : forall data nm l,
  read_label_file data nm = Ok l -> List.length (lines data) = 2%nat.
Proof.
  intros data nm l H. unfold read_label_file in H.
  destruct (lines data) as [|a [|b [|c rest]]]; try discriminate. reflexivity.
Qed.

(** *** Decimal versions *)

Lemma digit_char : forall m, (m < 10)%N ->
  digit_value (ascii_of_N (48 + m)) = Some m /\ plain (ascii_of_N (48 + m)) = true /\
  Ascii.eqb (ascii_of_N (48 + m)) plus_sign = false.
Proof.
  intros m Hm.
  assert (H : (m = 0 \/ m = 1 \/ m = 2 \/ m = 3 \/ m = 4 \/ m = 5 \/ m = 6 \/ m = 7 \/
               m = 8 \/ m = 9)%N) by lia.
  repeat destruct H as [->|H]; try (split; [reflexivity | split; reflexivity]).
  subst. split; [reflexivity | split; reflexivity].
Qed.

Lemma decimal_digits_plain : forall f v acc,
  all_chars plain acc = true -> all_chars plain (decimal_digits f v acc) = true.
Proof.
  induction f as [|f IH]; intros v acc H; cbn [decimal_digits]; [exact H|].
  assert (Hd : plain (ascii_of_N (48 + v mod 10)) = true)
    by (apply digit_char, N.mod_lt; discriminate).
  destruct (N.ltb v 10).
  - cbn [all_chars]. now rewrite Hd, H.
  - apply IH. cbn [all_chars]. now rewrite Hd, H.
Qed.

Lemma decimal_digits_head : forall f v acc, exists m rest, (m < 10)%N /\
  decimal_digits (S f) v acc = String (ascii_of_N (48 + m)) rest.
Proof.
  induction f as [|f IH]; intros v acc; cbn [decimal_digits].
  - destruct (N.ltb v 10); exists (v mod 10)%N;
      [exists acc | exists acc]; (split; [apply N.mod_lt; discriminate | reflexivity]).
  - destruct (N.ltb v 10).
    + exists (v mod 10)%N, acc. split; [apply N.mod_lt; discriminate | reflexivity].
    + apply IH.
Qed.

Lemma parse_decimal_digits : forall f v acc,
  (v < 10 ^ N.of_nat f)%N -> (v < 2 ^ 64)%N ->
  parse_digits 0 (decimal_digits f v acc) = parse_digits v acc.
Proof.
  induction f as [|f IH]; intros v acc Hf H64.
  - simpl in Hf. assert (v = 0)%N as -> by lia. reflexivity.
  - rewrite Nat2N.inj_succ, N.pow_succ_r' in Hf.
    pose proof (N.div_mod v 10 ltac:(discriminate)) as Hdm.
    pose proof (N.mod_lt v 10 ltac:(discriminate)) as Hmod.
    destruct (digit_char (v mod 10) Hmod) as [Hdv _].
    cbn [decimal_digits]. destruct (N.ltb v 10) eqn:E.
    + apply N.ltb_lt in E. cbn [parse_digits]. rewrite Hdv.
      rewrite N.mod_small in * by exact E.
      replace (0 * 10 + v)%N with v by lia.
      apply N.ltb_lt in H64. now rewrite H64.
    + rewrite IH; [| apply N.Div0.div_lt_upper_bound; exact Hf
                    | apply (N.le_lt_trans _ v); [apply N.Div0.div_le_upper_bound; lia | exact H64]].
      cbn [parse_digits]. rewrite Hdv.
      replace (v / 10 * 10 + v mod 10)%N with v by lia.
      apply N.ltb_lt in H64. now rewrite H64.
Qed.

Lemma size_nat_bound : forall v, (v < 2 ^ N.of_nat (N.size_nat v))%N.
Proof.
  intros [|p]; [reflexivity|]. simpl.
  induction p as [p IH|p IH|]; simpl Pos.size_nat.
  - rewrite Nat2N.inj_succ, N.pow_succ_r'.
    replace (N.pos p~1) with (2 * N.pos p + 1)%N by reflexivity. lia.
  - rewrite Nat2N.inj_succ, N.pow_succ_r'.
    replace (N.pos p~0) with (2 * N.pos p)%N by reflexivity. lia.
  - reflexivity.
Qed.

Lemma decimal_fuel : forall v, (v < 10 ^ N.of_nat (S (N.size_nat v)))%N.
Proof.
  intros v. pose proof (size_nat_bound v) as H.
  assert (Hle : (2 ^ N.of_nat (N.size_nat v) <= 10 ^ N.of_nat (N.size_nat v))%N)
    by (apply N.pow_le_mono_l; lia).
  rewrite Nat2N.inj_succ, N.pow_succ_r'. lia.
Qed.

Lemma decimal_facts : forall v, (v < 2 ^ 64)%N ->
  all_chars plain (decimal v) = true /\ u64_from_str_radix10 (decimal v) = Some v.
Proof.
  intros v H64. split; [apply decimal_digits_plain; reflexivity|].
  destruct (decimal_digits_head (N.size_nat v) v EmptyString) as [m [rest [Hm E]]].
  destruct (digit_char m Hm) as [_ [_ Hplus]].
  pose proof (parse_decimal_digits _ v EmptyString (decimal_fuel v) H64) as Hp.
  unfold decimal. rewrite E in *. cbn [u64_from_str_radix10]. rewrite Hplus.
  rewrite Hp. simpl. apply N.ltb_lt in H64. reflexivity.
Qed.

(** *** Hexadecimal layer names *)

Lemma hex_char_facts : forall d, (0 <= d < 16)%Z ->
  hex_value (hex_char d) = Some d /\ plain (hex_char d) = true.
Proof.
  intros d Hd.
  assert (H : (d = 0 \/ d = 1 \/ d = 2 \/ d = 3 \/ d = 4 \/ d = 5 \/ d = 6 \/ d = 7 \/
               d = 8 \/ d = 9 \/ d = 10 \/ d = 11 \/ d = 12 \/ d = 13 \/ d = 14 \/ d = 15)%Z)
    by lia.
  repeat destruct H as [->|H]; try (split; reflexivity).
  subst. split; reflexivity.
Qed.

Lemma land_15 : forall w, Z.land w 15 = (w mod 16)%Z.
Proof. intros w. change 15%Z with (Z.ones 4). rewrite Z.land_ones by lia. reflexivity. Qed.

Lemma hex_digits_length : forall n w, String.length (hex_digits n w) = n.
Proof.
  induction n as [|n IH]; intros w; simpl; [reflexivity|].
  rewrite slength_app, IH. simpl. lia.
Qed.

Lemma hex_digits_plain : forall n w, all_chars plain (hex_digits n w) = true.
Proof.
  induction n as [|n IH]; intros w; simpl; [reflexivity|].
  rewrite all_chars_app, IH. simpl.
  rewrite land_15. destruct (hex_char_facts (w mod 16)) as [_ ->]; [|reflexivity].
  pose proof (Z.mod_pos_bound w 16). lia.
Qed.

Lemma hex_word_app : forall s t acc,
  hex_word acc (s ++ t) = option_bind (fun a => hex_word a t) (hex_word acc s).
Proof.
  induction s as [|c s IH]; intros t acc; simpl; [reflexivity|].
  destruct (hex_value c); [apply IH | reflexivity].
Qed.

Lemma hex_word_digits : forall n w acc, (0 <= w < 16 ^ Z.of_nat n)%Z ->
  hex_word acc (hex_digits n w) = Some (acc * 16 ^ Z.of_nat n + w)%Z.
Proof.
  induction n as [|n IH]; intros w acc Hw.
  - simpl in *. assert (w = 0)%Z as -> by lia. f_equal. lia.
  - rewrite Nat2Z.inj_succ, Z.pow_succ_r in * by lia.
    simpl hex_digits. rewrite hex_word_app.
    rewrite Z.shiftr_div_pow2 by lia. change (2 ^ 4)%Z with 16%Z.
    pose proof (Z.pow_pos_nonneg 16 (Z.of_nat n) ltac:(lia) ltac:(lia)) as Hpos.
    rewrite IH by (split; [apply Z.div_pos; lia | apply Z.div_lt_upper_bound; lia]).
    cbn [option_bind hex_word]. rewrite land_15.
    pose proof (Z.mod_pos_bound w 16 ltac:(lia)) as Hm.
    destruct (hex_char_facts (w mod 16) Hm) as [-> _]. cbn [hex_word].
    f_equal. pose proof (Z.div_mod w 16 ltac:(lia)). nia.
Qed.

Lemma substring_app_prefix : forall s t m,
  String.length s = m -> substring 0 m (s ++ t) = s.
Proof.
  induction s as [|c s IH]; intros t m Hm; simpl in Hm; subst; simpl; [destruct t; reflexivity|].
  now rewrite IH.
Qed.

Lemma substring_app_skip : forall s t k m, (String.length s <= k)%nat ->
  substring k m (s ++ t) = substring (k - String.length s) m t.
Proof.
  induction s as [|c s IH]; intros t k m Hk; simpl.
  - now rewrite Nat.sub_0_r.
  - simpl in Hk. destruct k as [|k]; [lia|]. apply IH. lia.
Qed.

Lemma substring_exact : forall s m, String.length s = m -> substring 0 m s = s.
Proof. intros s m <-. apply substring_whole. Qed.

Lemma substring_length_le : forall s n m, (String.length (substring n m s) <= m)%nat.
Proof.
  induction s as [|c s IH]; intros [|n] [|m]; simpl; try lia.
  - specialize (IH 0%nat m). lia.
  - apply (IH n 0%nat).
  - apply (IH n (S m)).
Qed.

Lemma name_to_string_length : forall n, String.length (name_to_string n) = 40%nat.
Proof. intros n. unfold name_to_string. rewrite !slength_app, !hex_digits_length. reflexivity. Qed.

Lemma name_to_string_plain : forall n, all_chars plain (name_to_string n) = true.
Proof. intros n. unfold name_to_string. rewrite !all_chars_app, !hex_digits_plain. reflexivity. Qed.

Lemma string_to_name_to_string : forall n, u32_words n ->
  string_to_name (name_to_string n) = Ok n.
Proof.
  intros [a b c d e] (Ha & Hb & Hc & Hd & He). cbn [w0 w1 w2 w3 w4] in *.
  assert (W : forall w, (0 <= w < 2 ^ 32)%Z -> hex_word 0 (hex_digits 8 w) = Some w).
  { intros w Hw. rewrite hex_word_digits; [f_equal; lia|]. change (16 ^ Z.of_nat 8)%Z with (2 ^ 32)%Z. lia. }
  pose proof (name_to_string_length (LayerName a b c d e)) as Hlen.
  unfold string_to_name. rewrite Hlen. cbv zeta. cbn [negb Nat.eqb].
  unfold name_to_string. cbn [w0 w1 w2 w3 w4].
  pose proof (hex_digits_length 8 a) as La. pose proof (hex_digits_length 8 b) as Lb.
  pose proof (hex_digits_length 8 c) as Lc. pose proof (hex_digits_length 8 d) as Ld.
  pose proof (hex_digits_length 8 e) as Le.
  remember (hex_digits 8 a) as A. remember (hex_digits 8 b) as B.
  remember (hex_digits 8 c) as C. remember (hex_digits 8 d) as D.
  remember (hex_digits 8 e) as E.
  change (8 * 0)%nat with 0%nat. change (8 * 1)%nat with 8%nat. change (8 * 2)%nat with 16%nat.
  change (8 * 3)%nat with 24%nat. change (8 * 4)%nat with 32%nat.
  rewrite (substring_app_prefix A) by exact La.
  rewrite (substring_app_skip A _ 8) by lia. rewrite La. change (8 - 8)%nat with 0%nat.
  rewrite (substring_app_prefix B) by exact Lb.
  rewrite (substring_app_skip A _ 16) by lia. rewrite La. change (16 - 8)%nat with 8%nat.
  rewrite (substring_app_skip B _ 8) by lia. rewrite Lb. change (8 - 8)%nat with 0%nat.
  rewrite (substring_app_prefix C) by exact Lc.
  rewrite (substring_app_skip A _ 24) by lia. rewrite La. change (24 - 8)%nat with 16%nat.
  rewrite (substring_app_skip B _ 16) by lia. rewrite Lb. change (16 - 8)%nat with 8%nat.
  rewrite (substring_app_skip C _ 8) by lia. rewrite Lc. change (8 - 8)%nat with 0%nat.
  rewrite (substring_app_prefix D) by exact Ld.
  rewrite (substring_app_skip A _ 32) by lia. rewrite La. change (32 - 8)%nat with 24%nat.
  rewrite (substring_app_skip B _ 24) by lia. rewrite Lb. change (24 - 8)%nat with 16%nat.
  rewrite (substring_app_skip C _ 16) by lia. rewrite Lc. change (16 - 8)%nat with 8%nat.
  rewrite (substring_app_skip D _ 8) by lia. rewrite Ld. change (8 - 8)%nat with 0%nat.
  rewrite (substring_exact E) by exact Le.
  subst. rewrite (W a Ha), (W b Hb), (W c Hc), (W d Hd), (W e He). reflexivity.
Qed.

(** *** Bounds of what [read_label_file] returns *)

Lemma parse_digits_bound : forall s acc v,
  parse_digits acc s = Some v -> (acc < 2 ^ 64)%N -> (v < 2 ^ 64)%N.
Proof.
  induction s as [|c s IH]; simpl; intros acc v H Hacc; [inversion H; subst; exact Hacc|].
  destruct (digit_value c); [|discriminate].
  destruct (N.ltb _ _) eqn:E; [|discriminate].
  apply N.ltb_lt in E. exact (IH _ _ H E).
Qed.

Lemma u64_bound : forall s v, u64_from_str_radix10 s = Some v -> (v < 2 ^ 64)%N.
Proof.
  intros [|c s] v H; [discriminate|]. unfold u64_from_str_radix10 in H.
  destruct (Ascii.eqb c plus_sign); [destruct s; [discriminate|]|];
    exact (parse_digits_bound _ 0 v H (eq_refl _)).
Qed.

Lemma hex_value_range : forall c d, hex_value c = Some d -> (0 <= d < 16)%Z.
Proof.
  intros c d H. unfold hex_value in H.
  destruct ((48 <=? nat_of_ascii c)%nat && (nat_of_ascii c <=? 57)%nat) eqn:E1.
  - inversion H; subst. apply andb_true_iff in E1 as [E1 E2].
    apply Nat.leb_le in E1, E2. lia.
  - destruct ((97 <=? nat_of_ascii c)%nat && (nat_of_ascii c <=? 102)%nat) eqn:E2;
      [|discriminate].
    inversion H; subst. apply andb_true_iff in E2 as [E2 E3].
    apply Nat.leb_le in E2, E3. lia.
Qed.

Lemma hex_word_range : forall s acc w, (0 <= acc)%Z -> hex_word acc s = Some w ->
  (0 <= w < (acc + 1) * 16 ^ Z.of_nat (String.length s))%Z.
Proof.
  induction s as [|c s IH]; intros acc w Hacc H; simpl in H.
  - inversion H; subst. cbn [String.length Z.of_nat]. rewrite Z.pow_0_r. lia.
  - destruct (hex_value c) as [d|] eqn:Ed; [|discriminate].
    pose proof (hex_value_range c d Ed) as Hd.
    pose proof (IH (acc * 16 + d)%Z w ltac:(lia) H) as Hw.
    cbn [String.length]. rewrite Nat2Z.inj_succ, Z.pow_succ_r by lia.
    pose proof (Z.pow_pos_nonneg 16 (Z.of_nat (String.length s)) ltac:(lia) ltac:(lia)).
    nia.
Qed.

Lemma hex_block_range : forall s i w, hex_word 0 (substring (8 * i) 8 s) = Some w ->
  (0 <= w < 2 ^ 32)%Z.
Proof.
  intros s i w H. apply hex_word_range in H; [|lia].
  pose proof (substring_length_le s (8 * i) 8) as Hl.
  assert (16 ^ Z.of_nat (String.length (substring (8 * i) 8 s)) <= 16 ^ 8)%Z
    by (apply Z.pow_le_mono_r; lia).
  change (2 ^ 32)%Z with (16 ^ 8)%Z. lia.
Qed.

Lemma string_to_name_words : forall s n, string_to_name s = Ok n -> u32_words n.
Proof.
  intros s n H. unfold string_to_name in H.
  destruct (negb (String.length s =? 40)%nat); [discriminate|].
  destruct (hex_word 0 (substring (8 * 0) 8 s)) eqn:E0; [|discriminate].
  destruct (hex_word 0 (substring (8 * 1) 8 s)) eqn:E1; [|discriminate].
  destruct (hex_word 0 (substring (8 * 2) 8 s)) eqn:E2; [|discriminate].
  destruct (hex_word 0 (substring (8 * 3) 8 s)) eqn:E3; [|discriminate].
  destruct (hex_word 0 (substring (8 * 4) 8 s)) eqn:E4; [|discriminate].
  inversion H; subst. unfold u32_words; simpl.
  repeat split; eapply hex_block_range; eassumption.
Qed.

Lemma read_label_file_bounds : forall data nm l, read_label_file data nm = Ok l ->
  name l = nm /\ (version l < 2 ^ 64)%N /\ (forall n, layer l = Some n -> u32_words n).
Proof.
  intros data nm l H. unfold read_label_file in H.
  destruct (lines data) as [|vs [|ls [|x rest]]]; try discriminate.
  destruct (u64_from_str_radix10 vs) as [v|] eqn:Hv; [|discriminate].
  pose proof (u64_bound vs v Hv) as Hb.
  destruct (String.length ls =? 0)%nat.
  - inversion H; subst. split; [reflexivity|]. split; [exact Hb|].
    intros n Hn; discriminate.
  - destruct (string_to_name ls) as [n|e] eqn:Hn; simpl in H; [|discriminate].
    inversion H; subst. split; [reflexivity|]. split; [exact Hb|].
    intros n' Hn'. inversion Hn'; subst. exact (string_to_name_words ls n' Hn).
Qed.

Lemma read_label_contents : forall label, (version label < 2 ^ 64)%N ->
  (forall n, layer label = Some n -> u32_words n) ->
  read_label_file (label_contents label) (name label) = Ok label.
Proof.
  intros [nm lay v] Hv Hw; cbn [version layer name] in *.
  destruct (decimal_facts v Hv) as [Hp Hd].
  destruct lay as [n|]; unfold label_contents; cbn [version layer name].
  - unfold read_label_file.
    rewrite (lines_two _ _ Hp (name_to_string_plain n)).
    cbv beta iota zeta. rewrite Hd, name_to_string_length.
    cbv beta iota zeta delta [Nat.eqb].
    rewrite (string_to_name_to_string n (Hw n eq_refl)). reflexivity.
  - unfold read_label_file.
    change (String newline (String newline EmptyString))
      with (String newline (EmptyString ++ String newline EmptyString)).
    rewrite (lines_two _ EmptyString Hp eq_refl). cbv beta iota zeta. rewrite Hd. reflexivity.
Qed.

(** A layer name whose words use all eight hex digits. *)
Definition example_name : layer_name := LayerName 3735928559 1 4294967295 305419896 0.

(** A label file with a ['+'] before its version and CRLF line ends. *)
Definition crlf_label_file : string :=
  String plus_sign (String (ascii_of_nat 55) (String carriage_return (String newline
    (name_to_string example_name ++ String carriage_return (String newline EmptyString))))).

(** A label file at version 1 with no layer. *)
Definition version_one_file : string :=
  String (ascii_of_nat 49) (String newline (String newline EmptyString)).

(** [read_label_file] reads back the bytes [write_label] emits for a
    label ([format!("{}\n{}\n", version, name_to_string(layer))], or an
    empty second line without a layer), whenever the version is a [u64]
    and the layer name's words are [u32]s. *)
Theorem label_contents_read_back : forall label,
  (version label < 2 ^ 64)%N ->
  (forall n, layer label = Some n -> u32_words n) ->
  read_label_file (label_contents label) (name label) = Ok label.
Proof. exact read_label_contents. Qed.

Lemma label_contents_read_back_witness :
  (version (MkLabel "db" (Some example_name) 7) < 2 ^ 64)%N /\ u32_words example_name /\
  read_label_file (label_contents (MkLabel "db" (Some example_name) 7)) "db" =
    Ok (MkLabel "db" (Some example_name) 7).
Proof.
  assert (H1 : (version (MkLabel "db" (Some example_name) 7) < 2 ^ 64)%N) by reflexivity.
  assert (H2 : u32_words example_name) by (unfold u32_words; simpl; lia).
  split; [exact H1|]. split; [exact H2|].
  apply (label_contents_read_back (MkLabel "db" (Some example_name) 7) H1).
  intros n Hn. inversion Hn; subst. exact H2.
Defined.

(** Every write [write_label] performs leaves a label file that
    [read_label_file] rejects: when the stored version is below the
    label's, the record is written at the read cursor, i.e. appended after
    the two lines just read, and the file then has at least three lines. *)
Theorem write_label_leaves_unreadable : forall label data disk nm,
  read_label_file data (name label) = Ok disk ->
  (version disk < version label)%N ->
  snd (write_label label data) = (data ++ label_contents label)%string /\
  read_label_file (snd (write_label label data)) nm =
    Err (IoError InvalidData "expected label file to have two lines").
Proof.
  intros label data disk nm Hread Hlt.
  destruct (write_label_cases label data disk Hread) as [_ [_ H]].
  rewrite (H Hlt). cbn [snd]. split; [reflexivity|].
  apply read_label_file_not_two.
  pose proof (read_label_file_two _ _ _ Hread) as H2.
  pose proof (lines_length_le data) as Hle.
  assert (E : exists x, label_contents label =
    (decimal (version label) ++ String newline (x ++ String newline EmptyString))%string).
  { unfold label_contents. destruct (layer label); [eexists; reflexivity|].
    exists EmptyString. reflexivity. }
  destruct E as [x ->].
  replace (data ++ decimal (version label) ++ String newline (x ++ String newline EmptyString))%string
    with ((data ++ decimal (version label) ++ String newline x) ++ String newline EmptyString)%string
    by (rewrite !sapp_assoc; reflexivity).
  rewrite lines_length_snoc, !count_char_app. cbn [count_char]. rewrite ?eqb_self. lia.
Qed.

Lemma write_label_leaves_unreadable_witness :
  read_label_file version_one_file "db" = Ok (MkLabel "db" None 1) /\
  (version (MkLabel "db" None 1) < version (MkLabel "db" None 2))%N /\
  read_label_file (snd (write_label (MkLabel "db" None 2) version_one_file)) "db" =
    Err (IoError InvalidData "expected label file to have two lines").
Proof.
  assert (H1 : read_label_file version_one_file (name (MkLabel "db" None 2)) =
               Ok (MkLabel "db" None 1)) by (vm_compute; reflexivity).
  assert (H2 : (version (MkLabel "db" None 1) < version (MkLabel "db" None 2))%N)
    by reflexivity.
  split; [exact H1|]. split; [exact H2|].
  exact (proj2 (write_label_leaves_unreadable _ _ _ "db" H1 H2)).
Defined.

(** A label [read_label_file] returns is written back faithfully: the
    bytes [write_label] emits for it read back as the same label, so a
    version with a leading ['+'] or lines ending in CRLF come back in the
    canonical form with the same meaning. *)
Theorem read_label_file_rewrite : forall data nm l,
  read_label_file data nm = Ok l -> read_label_file (label_contents l) nm = Ok l.
Proof.
  intros data nm l H.
  destruct (read_label_file_bounds data nm l H) as [<- [Hv Hw]].
  exact (read_label_contents l Hv Hw).
Qed.

Lemma read_label_file_rewrite_witness :
  read_label_file crlf_label_file "db" = Ok (MkLabel "db" (Some example_name) 7) /\
  read_label_file (label_contents (MkLabel "db" (Some example_name) 7)) "db" =
    Ok (MkLabel "db" (Some example_name) 7).
Proof.
  assert (H : read_label_file crlf_label_file "db" = Ok (MkLabel "db" (Some example_name) 7))
    by (vm_compute; reflexivity).
  split; [exact H|]. exact (read_label_file_rewrite _ _ _ H).
Defined.

End LabelFileExtras.

(** * Further properties of lookups and partially resolved triples *)

Module LayerExtras.

Import Layers LayerFacts.

Ltac bool_props :=
  repeat rewrite ?orb_true_iff, ?andb_true_iff, ?orb_false_iff, ?andb_false_iff,
    ?N.ltb_lt, ?N.eqb_eq, ?N.ltb_ge, ?N.eqb_neq in *.

(** [Option::or]: the first option when it has a value. *)
Definition or_else (a b : option N) : option N :=
  match a with
  | Some _ => a
  | None => b
  end.

Lemma has_subject_predicate_pair_loop_sound : forall pairs s p,
  has_subject_predicate_pair_loop pairs s p = true -> In (s, p) pairs.
Proof.
  induction pairs as [|[s' p'] rest IH]; intros s p; simpl; [discriminate|].
  destruct (N.eqb s' s && N.eqb p' p) eqn:E1.
  - intros _. left. bool_props. destruct E1 as [-> ->]. reflexivity.
  - destruct (N.ltb s s' || (N.eqb s' s && N.ltb p p')); [discriminate|].
    intros H. right. exact (IH s p H).
Qed.

Lemma has_subject_predicate_pair_loop_complete : forall pairs s p,
  Sorted pair_lt pairs -> In (s, p) pairs -> has_subject_predicate_pair_loop pairs s p = true.
Proof.
  intros pairs s p Hsorted.
  apply Sorted_StronglySorted in Hsorted; [|exact (fun x y z => pair_lt_trans x y z)].
  induction Hsorted as [|[s' p'] rest Hrest IH Hhd]; simpl; [intros []|].
  intros Hin.
  destruct (N.eqb s' s && N.eqb p' p) eqn:E1; [reflexivity|].
  destruct Hin as [Heq|Hin].
  - inversion Heq; subst. rewrite !N.eqb_refl in E1. discriminate.
  - destruct (N.ltb s s' || (N.eqb s' s && N.ltb p p')) eqn:E2; [|exact (IH Hin)].
    exfalso. rewrite Forall_forall in Hhd. specialize (Hhd _ Hin).
    assert (Hback : pair_lt (s, p) (s', p')).
    { unfold pair_lt, pair_ltb; simpl. bool_props. lia. }
    exact (pair_lt_irrefl _ (pair_lt_trans _ _ _ Hback Hhd)).
Qed.

(** [ObjectLookup::has_subject_predicate_pair] never reports a pair that
    is not among [subject_predicate_pairs()], whatever their order: only
    its [false] answers depend on the pairs being sorted. *)
Theorem has_subject_predicate_pair_sound : forall ol s p,
  has_subject_predicate_pair ol s p = true -> In (s, p) (ol_subject_predicate_pairs ol).
Proof. intros ol s p. apply has_subject_predicate_pair_loop_sound. Qed.

Lemma has_subject_predicate_pair_sound_witness :
  has_subject_predicate_pair (MkObjectLookup 4 [(3, 1); (1, 2)]%N) 3 1 = true /\
  In (3, 1)%N (ol_subject_predicate_pairs (MkObjectLookup 4 [(3, 1); (1, 2)]%N)).
Proof.
  assert (H : has_subject_predicate_pair (MkObjectLookup 4 [(3, 1); (1, 2)]%N) 3 1 = true)
    by reflexivity.
  split; [exact H|]. exact (has_subject_predicate_pair_sound _ 3 1 H).
Defined.

(** When the pairs ascend strictly, [ObjectLookup::triple s p] finds
    exactly the triples [ObjectLookup::triples()] yields with subject [s]
    and predicate [p]. *)
Theorem object_triple_in_triples : forall ol s p t,
  Sorted pair_lt (ol_subject_predicate_pairs ol) ->
  ol_triple ol s p = Some t <->
  In t (ol_triples ol) /\ subject t = s /\ predicate t = p.
Proof.
  intros [o pairs] s p t Hsorted. unfold ol_triple, ol_triples, has_subject_predicate_pair.
  cbn [ol_object ol_subject_predicate_pairs] in *. split.
  - destruct (has_subject_predicate_pair_loop pairs s p) eqn:E; [|discriminate].
    intros H. inversion H; subst. split; [|split; reflexivity].
    apply in_map_iff. exists (s, p). split; [reflexivity|].
    exact (has_subject_predicate_pair_loop_sound pairs s p E).
  - intros [Hin [Hs Hp]]. apply in_map_iff in Hin as [[s' p'] [<- Hin]].
    cbn [subject predicate] in Hs, Hp. subst s' p'.
    rewrite (has_subject_predicate_pair_loop_complete pairs s p Hsorted Hin). reflexivity.
Qed.

Lemma object_triple_in_triples_witness :
  Sorted pair_lt (ol_subject_predicate_pairs (MkObjectLookup 4 [(1, 2); (3, 1)]%N)) /\
  (ol_triple (MkObjectLookup 4 [(1, 2); (3, 1)]%N) 3 1 = Some (IdTriple_new 3 1 4) <->
   In (IdTriple_new 3 1 4) (ol_triples (MkObjectLookup 4 [(1, 2); (3, 1)]%N)) /\
   subject (IdTriple_new 3 1 4) = 3%N /\ predicate (IdTriple_new 3 1 4) = 1%N).
Proof.
  assert (H : Sorted pair_lt (ol_subject_predicate_pairs (MkObjectLookup 4 [(1, 2); (3, 1)]%N)))
    by (repeat constructor).
  split; [exact H|]. exact (object_triple_in_triples _ 3 1 _ H).
Defined.

(** When the pairs ascend strictly, [ObjectLookup::triples()] ascends
    strictly in [(subject, predicate, object)] order, and every triple it
    yields has the lookup's object. *)
Theorem object_triples_ascending : forall ol,
  Sorted pair_lt (ol_subject_predicate_pairs ol) ->
  Sorted idtriple_lt (ol_triples ol) /\
  Forall (fun t => object t = ol_object ol) (ol_triples ol).
Proof.
  intros [o pairs] Hsorted. unfold ol_triples. cbn [ol_object ol_subject_predicate_pairs] in *.
  split.
  - induction Hsorted as [|[s p] rest Hrest IH Hhd]; simpl; constructor; [exact IH|].
    destruct Hhd as [|[s' p'] rest' Hlt]; simpl; constructor.
    unfold pair_lt, pair_ltb in Hlt. unfold idtriple_lt, idtriple_ltb. simpl in *.
    bool_props. lia.
  - apply Forall_forall. intros t Hin. apply in_map_iff in Hin as [[s p] [<- _]]. reflexivity.
Qed.

Lemma object_triples_ascending_witness :
  Sorted pair_lt (ol_subject_predicate_pairs (MkObjectLookup 4 [(1, 2); (3, 1)]%N)) /\
  Sorted idtriple_lt (ol_triples (MkObjectLookup 4 [(1, 2); (3, 1)]%N)).
Proof.
  assert (H : Sorted pair_lt (ol_subject_predicate_pairs (MkObjectLookup 4 [(1, 2); (3, 1)]%N)))
    by (repeat constructor).
  split; [exact H|]. exact (proj1 (object_triples_ascending _ H)).
Defined.

(** [PartiallyResolvedTriple::resolve_with] gives back the triple that
    [IdTriple::to_resolved] started from, whatever the maps. *)
Theorem resolve_with_to_resolved : forall t node_map predicate_map value_map,
  resolve_with (to_resolved t) node_map predicate_map value_map = Some t.
Proof. intros [s p o] node_map predicate_map value_map. reflexivity. Qed.

(** [StringTriple::to_unresolved] followed by [resolve_with] succeeds
    exactly when the subject is in the node map, the predicate in the
    predicate map, and the object in the node map if it is a [Node] and
    in the value map if it is a [Value]; the ids are the maps' entries. *)
Theorem resolve_with_to_unresolved : forall t node_map predicate_map value_map id,
  resolve_with (to_unresolved t) node_map predicate_map value_map = Some id <->
  hashmap_get node_map (st_subject t) = Some (subject id) /\
  hashmap_get predicate_map (st_predicate t) = Some (predicate id) /\
  match st_object t with
  | Node n => hashmap_get node_map n
  | Value v => hashmap_get value_map v
  end = Some (object id).
Proof.
  intros [s p o] node_map predicate_map value_map [si pi oi].
  unfold resolve_with, to_unresolved, option_bind. cbn [pr_subject pr_predicate pr_object
    st_subject st_predicate st_object subject predicate object].
  destruct (hashmap_get node_map s) as [a|];
    [|split; [discriminate | intros [H _]; discriminate]].
  destruct (hashmap_get predicate_map p) as [b|];
    [|split; [discriminate | intros [_ [H _]]; discriminate]].
  destruct o as [n|v];
    [destruct (hashmap_get node_map n) as [c|] | destruct (hashmap_get value_map v) as [c|]];
    (split; [intros H; inversion H; subst; auto
            | intros [H1 [H2 H3]]; inversion H1; inversion H2; inversion H3; subst; reflexivity]).
Qed.

(** [Layer::string_triple_to_partially_resolved] followed by
    [resolve_with] resolves each component through the layer first and
    through the maps only when the layer does not know it (subjects and
    [Node] objects through the node map, [Value] objects through the value
    map). *)
Theorem resolve_partially_resolved : forall l t node_map predicate_map value_map,
  resolve_with (string_triple_to_partially_resolved l t) node_map predicate_map value_map =
  option_bind (fun s =>
    option_bind (fun p =>
      option_map (fun o => IdTriple_new s p o)
        (match st_object t with
         | Node n => or_else (object_node_id l n) (hashmap_get node_map n)
         | Value v => or_else (object_value_id l v) (hashmap_get value_map v)
         end))
      (or_else (predicate_id l (st_predicate t)) (hashmap_get predicate_map (st_predicate t))))
    (or_else (subject_id l (st_subject t)) (hashmap_get node_map (st_subject t))).
Proof.
  intros l [s p o] node_map predicate_map value_map.
  unfold resolve_with, string_triple_to_partially_resolved, resolved_or, or_else,
    option_bind, option_map.
  cbn [pr_subject pr_predicate pr_object st_subject st_predicate st_object].
  destruct o as [n|v];
  [ destruct (object_node_id l n) as [c|], (hashmap_get node_map n) as [c'|]
  | destruct (object_value_id l v) as [c|], (hashmap_get value_map v) as [c'|] ];
  destruct (subject_id l s) as [a|], (hashmap_get node_map s) as [a'|];
  destruct (predicate_id l p) as [b|], (hashmap_get predicate_map p) as [b'|];
  reflexivity.
Qed.

(** When the layer resolves the whole triple ([string_triple_to_id] gives
    [Some id]), [string_triple_to_partially_resolved] followed by
    [resolve_with] gives the same [id] whatever the maps hold. *)
Theorem resolve_known_triple : forall l t node_map predicate_map value_map id,
  string_triple_to_id l t = Some id ->
  resolve_with (string_triple_to_partially_resolved l t) node_map predicate_map value_map =
    Some id.
Proof.
  intros l [s p o] node_map predicate_map value_map id H.
  unfold string_triple_to_id, option_bind, option_map in H. cbn [st_subject st_predicate st_object] in H.
  unfold resolve_with, string_triple_to_partially_resolved, resolved_or, option_bind, option_map.
  cbn [pr_subject pr_predicate pr_object st_subject st_predicate st_object].
  destruct (subject_id l s) as [a|]; [|discriminate].
  destruct (predicate_id l p) as [b|]; [|discriminate].
  destruct o as [n|v]; [destruct (object_node_id l n) as [c|] | destruct (object_value_id l v) as [c|]];
    try discriminate; exact H.
Qed.

(** A base layer that knows the node "cow" (id 1), the predicate "says"
    (id 1) and the value "moo" (id 2), and no triples. *)
Definition dictionary_layer : layer :=
  Layer (LayerName 0 0 0 0 3) None
    (fun s => if String.eqb s "cow"%string then Some 1%N else None)
    (fun p => if String.eqb p "says"%string then Some 1%N else None)
    (fun o => if String.eqb o "cow"%string then Some 1%N else None)
    (fun o => if String.eqb o "moo"%string then Some 2%N else None)
    [] (fun _ => None).

Lemma resolve_known_triple_witness :
  string_triple_to_id dictionary_layer (MkStringTriple "cow"%string "says"%string (Value "moo"%string)) =
    Some (IdTriple_new 1 1 2) /\
  resolve_with (string_triple_to_partially_resolved dictionary_layer
                  (MkStringTriple "cow"%string "says"%string (Value "moo"%string)))
    [("cow"%string, 7%N)] [] [("moo"%string, 9%N)] = Some (IdTriple_new 1 1 2).
Proof.
  assert (H : string_triple_to_id dictionary_layer (MkStringTriple "cow"%string "says"%string (Value "moo"%string)) =
              Some (IdTriple_new 1 1 2)) by (vm_compute; reflexivity).
  split; [exact H|]. exact (resolve_known_triple _ _ _ _ _ _ H).
Defined.

End LayerExtras.

(** * Further properties of builders and databases *)

Module StoreExtras.

Import Storage Layers Store.

Section Staging.

Variable LayerBuilder : Type.
Variable LayerStore : Type.
Variable builder_add_string_triple : StringTriple -> LayerBuilder -> unit * LayerBuilder.
Variable builder_add_id_triple : IdTriple -> LayerBuilder -> bool * LayerBuilder.
Variable builder_remove_string_triple : StringTriple -> LayerBuilder -> bool * LayerBuilder.
Variable builder_remove_id_triple : IdTriple -> LayerBuilder -> bool * LayerBuilder.
Variable commit_boxed : LayerBuilder -> LayerStore -> result unit * LayerStore.
Variable get_layer : LayerStore -> layer_name -> result (option layer).

Let commit' := Store.commit LayerBuilder LayerStore commit_boxed get_layer.
Let run_op' := Store.run_op LayerBuilder LayerStore builder_add_string_triple
  builder_add_id_triple builder_remove_string_triple builder_remove_id_triple
  commit_boxed get_layer.

(** A staging call: anything but [commit]. *)
Definition is_staging (op : builder_op) : bool :=
  match op with
  | OpCommit => false
  | _ => true
  end.

(** What a staging call does to the boxed builder. *)
Definition stage (op : builder_op) (b : LayerBuilder) : LayerBuilder :=
  match op with
  | OpAddStringTriple t => snd (builder_add_string_triple t b)
  | OpAddIdTriple t => snd (builder_add_id_triple t b)
  | OpRemoveStringTriple t => snd (builder_remove_string_triple t b)
  | OpRemoveIdTriple t => snd (builder_remove_id_triple t b)
  | OpCommit => b
  end.

(** Runs calls one after another as [run_ops] does, and also returns
    the builder lock and the layer store the calls leave behind. *)
Fixpoint run_ops_final (name : layer_name) (ops : list builder_op)
  (st : builder_state LayerBuilder) (ls : LayerStore)
  : list (result unit) * (builder_state LayerBuilder * LayerStore) :=
  match ops with
  | [] => ([], (st, ls))
  | op :: rest =>
      let '(r, st', ls') := run_op' name op st ls in
      let (rs, final) := run_ops_final name rest st' ls' in
      (r :: rs, final)
  end.

(** On an uncommitted [DatabaseLayerBuilder], a sequence of staging calls
    followed by [commit] succeeds on every staging call, and [commit]
    hands [commit_boxed] the boxed builder with all staged changes applied
    in call order: the layer store afterwards is the one [commit_boxed]
    makes of that builder, [commit] returns what a commit of it returns,
    and the lock is left empty. *)
Theorem staged_calls_then_commit : forall name ops b ls,
  forallb is_staging ops = true ->
  let staged := fold_left (fun b op => stage op b) ops b in
  run_ops_final name (ops ++ [OpCommit]) (Some b) ls =
    (map (fun _ => Ok tt) ops ++ [erase (fst (fst (commit' name (Some staged) ls)))],
     (None, snd (commit_boxed staged ls))).
Proof.
  intros name ops. induction ops as [|op ops IH]; intros b ls H.
  - cbv zeta. cbn [app map fold_left run_ops_final].
    unfold run_op', commit'. cbn [Store.run_op]. unfold Store.commit.
    destruct (commit_boxed b ls) as [r ls']. reflexivity.
  - cbn [forallb] in H. apply andb_true_iff in H as [Hop H].
    cbv zeta. cbn [app map fold_left run_ops_final]. unfold run_op' at 1.
    destruct op as [t|t|t|t|]; try discriminate; cbn [Store.run_op stage];
      unfold add_string_triple, add_id_triple, remove_string_triple, remove_id_triple,
        with_builder;
      [ destruct (builder_add_string_triple t b) as [x b']
      | destruct (builder_add_id_triple t b) as [x b']
      | destruct (builder_remove_string_triple t b) as [x b']
      | destruct (builder_remove_id_triple t b) as [x b'] ];
      cbn [erase snd]; specialize (IH b' ls H); cbv zeta in IH; rewrite IH; reflexivity.
Qed.

End Staging.

Section Heads.

Variable LabelStore : Type.
Variable get_label : LabelStore -> string -> result (option Label).
Variable set_label : LabelStore -> Label -> layer_name -> result (option Label) * LabelStore.
Variable get_layer : layer_name -> result (option layer).

Let set_head' := Store.set_head LabelStore get_label set_label get_layer.

(** Once [Database::set_head] has called [set_label] (the label exists,
    and its head is unset or loads as an ancestor of the new layer), it
    returns [true] whatever [set_label] answers: a compare-and-swap lost
    to another writer ([Ok None]) is reported as success too; only an
    error of [set_label] comes through. *)
Theorem set_head_ignores_lost_swap : forall db new_layer ls label r ls',
  get_label ls db = Ok (Some label) ->
  (Storage.layer label = None \/
   exists hn l, Storage.layer label = Some hn /\ get_layer hn = Ok (Some l) /\
                is_ancestor_of l new_layer = true) ->
  set_label ls label (Layers.name new_layer) = (r, ls') ->
  set_head' db new_layer ls = (match r with Ok _ => Ok true | Err e => Err e end, ls').
Proof.
  intros db new_layer ls label r ls' Hget Hhead Hset.
  unfold set_head', Store.set_head. rewrite Hget.
  destruct Hhead as [Hn | [hn [l [Hl [Hg Ha]]]]].
  - rewrite Hn, Hset. destruct r; reflexivity.
  - rewrite Hl. cbn [bind]. rewrite Hg. cbn [bind]. rewrite Ha, Hset. destruct r; reflexivity.
Qed.

End Heads.

(** A layer with the given name, no parent and no contents. *)
Definition empty_layer (n : layer_name) : layer :=
  Layer n None (fun _ => None) (fun _ => None) (fun _ => None) (fun _ => None) [] (fun _ => None).

(** A builder that keeps the id triples added to it, and a layer store
    that keeps the committed builders. *)
Definition list_add_string_triple (_ : StringTriple) (b : list IdTriple) : unit * list IdTriple :=
  (tt, b).
Definition list_add_id_triple (t : IdTriple) (b : list IdTriple) : bool * list IdTriple :=
  (true, t :: b).
Definition list_remove_string_triple (_ : StringTriple) (b : list IdTriple) : bool * list IdTriple :=
  (false, b).
Definition list_remove_id_triple (_ : IdTriple) (b : list IdTriple) : bool * list IdTriple :=
  (false, b).
Definition list_commit_boxed (b : list IdTriple) (ls : list (list IdTriple))
  : result unit * list (list IdTriple) :=
  (Ok tt, b :: ls).
Definition list_get_layer (_ : list (list IdTriple)) (n : layer_name) : result (option layer) :=
  Ok (Some (empty_layer n)).

Definition staged_ops : list builder_op :=
  [OpAddIdTriple (IdTriple_new 1 2 3); OpRemoveIdTriple (IdTriple_new 4 5 6)].

Lemma staged_calls_then_commit_witness :
  forallb is_staging staged_ops = true /\
  run_ops_final (list IdTriple) (list (list IdTriple)) list_add_string_triple list_add_id_triple
    list_remove_string_triple list_remove_id_triple list_commit_boxed list_get_layer
    (LayerName 0 0 0 0 5) (staged_ops ++ [OpCommit]) (Some []) [] =
    ([Ok tt; Ok tt; Ok tt], (None, [[IdTriple_new 1 2 3]])).
Proof.
  assert (H : forallb is_staging staged_ops = true) by reflexivity.
  split; [exact H|].
  pose proof (staged_calls_then_commit (list IdTriple) (list (list IdTriple)) list_add_string_triple
             list_add_id_triple list_remove_string_triple list_remove_id_triple list_commit_boxed
             list_get_layer (LayerName 0 0 0 0 5) staged_ops [] [] H) as E.
  cbv zeta in E. rewrite E. reflexivity.
Defined.

(** A label store holding one label whose compare-and-swap always loses
    to another writer. *)
Definition lost_swap_set_label (l : Label) (_ : Label) (_ : layer_name)
  : result (option Label) * Label :=
  (Ok None, l).

Lemma set_head_ignores_lost_swap_witness :
  Store.set_head Label (fun l _ => Ok (Some l)) lost_swap_set_label (fun _ => Ok None)
    "db" (empty_layer (LayerName 0 0 0 0 6)) (MkLabel "db" None 0) =
  (Ok true, MkLabel "db" None 0).
Proof.
  exact (set_head_ignores_lost_swap Label (fun l _ => Ok (Some l)) lost_swap_set_label
           (fun _ => Ok None) "db" (empty_layer (LayerName 0 0 0 0 6)) (MkLabel "db" None 0)
           (MkLabel "db" None 0) (Ok None) (MkLabel "db" None 0)
           eq_refl (or_introl eq_refl) eq_refl).
Defined.

End StoreExtras.
